(** * Two-tier screening agent

    A shallow embedding of [src/agents/screening_agent.py] (the metrics
    accumulator, the classifier tier and the detailed screener tier) and of
    the part of [src/llms/chatgpt.py] that computes the cost of a call and
    retries the transport, followed by the properties of the specification
    that are stated about them.

    Conventions.
    - A Python [str] is a [string]: the sequence of its UTF-8 bytes.  The
      three markers are ASCII letters, no byte of a multi-byte sequence is
      an ASCII letter and no other code point folds to [x], [y] or [z], so
      searching the bytes finds what [re.search] finds in the code points.
    - A Python [float] is a binary64 [float] of the kernel ([PrimFloat]),
      with the IEEE-754 operations Python uses; a Python [int] is a [Z].
    - [logger] calls have no effect on any value and are left out. *)

From Stdlib Require Import ZArith List String Ascii Bool Lia Floats.
From stdpp Require Import base option list strings gmap.
Set Warnings "-inexact-float".

(** ** Exceptions and outcomes *)

(** The exceptions that occur: whatever the completion provider or the
    transport raises (opaque, carried by its message), and the three that
    the modelled Python operations raise themselves. *)
Inductive exn : Type :=
| ProviderError (msg : string)
| OverflowError
| ZeroDivisionError
| ValueError.

(** A Python expression that may raise: [inl e] raises [e]. *)
Definition raising (A : Type) : Type := (exn + A)%type.

#[global] Instance raising_bind : MBind raising := λ A B k x,
  match x with
  | inl e => inl e
  | inr a => k a
  end.

(** How a call of a function that talks to the outside ends.  The outside
    is a finite script of answers; when the script is used up the function
    is [Blocked] in its next call to the outside: it has neither returned
    nor raised. *)
Inductive outcome (A : Type) : Type :=
| Returned (a : A)
| Raised (e : exn)
| Blocked.
Arguments Returned {A} a.
Arguments Raised {A} e.
Arguments Blocked {A}.

(** ** [re.search(pattern, text, re.IGNORECASE)] for a literal pattern *)

Module re.

(** ASCII lower case; every other byte is left alone. *)
Definition lower (c : ascii) : ascii :=
  let n := N_of_ascii c in
  if ((65 <=? n) && (n <=? 90))%N then ascii_of_N (n + 32) else c.

Definition ieq (a b : ascii) : bool := Ascii.eqb (lower a) (lower b).

(** The pattern matches at the start of the text. *)
Fixpoint match_here (pattern text : string) : bool :=
  match pattern, text with
  | EmptyString, _ => true
  | String _ _, EmptyString => false
  | String p pattern', String c text' => ieq p c && match_here pattern' text'
  end.

(** [search pattern text] is [true] when [re.search] returns a match
    object (which is truthy) and [false] when it returns [None]. *)
Fixpoint search (pattern text : string) : bool :=
  match_here pattern text ||
  match text with
  | EmptyString => false
  | String _ text' => search pattern text'
  end.

End re.

(** ** Python numbers *)

(** [float(n)] for an [int]: the nearest binary64 value, ties to even;
    [OverflowError] when that is not finite. *)
Definition float_of_int (n : Z) : raising float :=
  let f := SF2Prim (binary_normalize prec emax n 0 false) in
  if is_infinity f then inl OverflowError else inr f.

(** A value that is an [int] or a [float]. *)
Inductive number : Type :=
| Int (n : Z)
| Float (f : float).

Definition to_float (a : number) : raising float :=
  match a with
  | Int n => float_of_int n
  | Float f => inr f
  end.

(** [a * b] and [a + b]: exact on two ints, otherwise both operands are
    converted to [float]. *)
Definition number_mul (a b : number) : raising number :=
  match a, b with
  | Int x, Int y => inr (Int (x * y))
  | _, _ => x ← to_float a; y ← to_float b; inr (Float (x * y))
  end.

Definition number_add (a b : number) : raising number :=
  match a, b with
  | Int x, Int y => inr (Int (x + y))
  | _, _ => x ← to_float a; y ← to_float b; inr (Float (x + y))
  end.

(** [a / n] for a float [a] and an int [n]: [ZeroDivisionError] when [n]
    is 0; otherwise [n] is converted, which may overflow, and the two
    floats are divided. *)
Definition float_truediv_int (a : float) (n : Z) : raising float :=
  if (n =? 0)%Z then inl ZeroDivisionError
  else b ← float_of_int n; inr (a / b)%float.

(** [x >= 0] on floats. *)
Definition nonneg (x : float) : Prop := (0 <=? x)%float = true.

(** The same on the specification's floats, and the float [1.0] there. *)
Definition SFnonneg (x : spec_float) : Prop := SFleb (S754_zero false) x = true.

Definition SFone : spec_float := S754_finite false 4503599627370496 (-52).

(** ** [config/config.py] *)

Record LLMConfig : Type := {
  gpt_4o_mini_model : string;
  o3_mini_model : string;
  timeout : Z;
  max_retries : Z;
  retry_delay : Z;
  pricing : gmap string (gmap string float)
}.

Record AppConfig : Type := {
  llm : LLMConfig;
  enable_cost_tracking : bool;
  enable_disagreement_tracking : bool
}.

(** The defaults of the two dataclasses. *)
Definition default_pricing : gmap string (gmap string float) :=
  <["gpt-4o-mini"%string :=
      <["prompt"%string := (0.0005 / 1000)%float]>
        (<["completion"%string := (0.0015 / 1000)%float]> ∅)]>
  (<["o3-mini"%string :=
      <["prompt"%string := (0.0005 / 1000)%float]>
        (<["completion"%string := (0.0015 / 1000)%float]> ∅)]> ∅).

Definition default_config : AppConfig := {|
  llm := {|
    gpt_4o_mini_model := "gpt-4o-mini";
    o3_mini_model := "gpt-4o-mini";
    timeout := 20;
    max_retries := 3;
    retry_delay := 10;
    pricing := default_pricing
  |};
  enable_cost_tracking := true;
  enable_disagreement_tracking := true
|}.

(** ** [llms/chatgpt.py]: the cost of a call and the transport retries *)

(** The fields of the API response that the client reads. *)
Record Usage : Type := {
  prompt_tokens : Z;
  completion_tokens : Z
}.

Record ChatCompletion : Type := {
  content : string;
  usage : Usage
}.

(** [messages] is a string or an already formatted list of messages; a
    formatted message is the pair of its role and its content. *)
Inductive messages : Type :=
| Text (s : string)
| Formatted (l : list (string * string)).

(** What one [client.chat.completions.create] is asked. *)
Record create_args : Type := {
  arg_model : string;
  arg_messages : list (string * string);
  arg_timeout : Z
}.

(** One scripted answer of the API: a response, or an exception. *)
Inductive attempt : Type :=
| Success (response : ChatCompletion)
| Failure (e : exn).

(** The outside of the client: the answers still to come, the requests
    made so far and the delays slept so far, oldest first. *)
Record Transport : Type := {
  answers : list attempt;
  created : list create_args;
  slept : list Z
}.

Module LLMClient.

Section Client.
(** [self.config] *)
Variable config : AppConfig.

(** [dict.get(key, 0)] on a price entry: the stored float, or the int 0. *)
Definition price (entry : gmap string float) (key : string) : number :=
  match entry !! key with
  | Some f => Float f
  | None => Int 0
  end.

Definition _calculate_cost (response : ChatCompletion) (model_name : string)
  : raising number :=
  let usage := usage response in
  let prompt_tokens := prompt_tokens usage in
  let completion_tokens := completion_tokens usage in
  let pricing := default ∅ (pricing (llm config) !! model_name) in
  if decide (pricing = ∅) then inr (Float 0)
  else
    a ← number_mul (Int prompt_tokens) (price pricing "prompt");
    b ← number_mul (Int completion_tokens) (price pricing "completion");
    number_add a b.

Definition format_messages (msgs : messages) (system_message : option string)
  : list (string * string) :=
  match msgs with
  | Text s =>
      match system_message with
      | Some (String c sys) =>
          [("system"%string, String c sys); ("user"%string, s)]
      | _ => [("user"%string, s)]
      end
  | Formatted l => l
  end.

(** [range(n)] *)
Definition range (n : Z) : list Z := map Z.of_nat (seq 0 (Z.to_nat n)).

(** The body of the [for attempt in range(max_retries)] loop, by
    recursion on the values of [attempt] still to run.  An exception
    of the [try] block (from [create] or from [_calculate_cost]) leads
    to a sleep and the next attempt, or is raised again on the last
    attempt; [time.sleep] itself raises [ValueError] on a negative
    delay.  A loop that ends without returning makes the function
    return [None]. *)
Fixpoint retry_loop (args : create_args) (todo : list Z)
  (rest : list attempt) (log : list create_args) (naps : list Z)
  : outcome (option (string * number)) * Transport :=
  match todo with
  | [] => (Returned None, {| answers := rest; created := log; slept := naps |})
  | attempt :: todo' =>
      let log' := log ++ [args] in
      let handler e rest' :=
        if (attempt <? max_retries (llm config) - 1)%Z then
          if (retry_delay (llm config) <? 0)%Z then
            (Raised ValueError,
             {| answers := rest'; created := log'; slept := naps |})
          else
            retry_loop args todo' rest' log' (naps ++ [retry_delay (llm config)])
        else
          (Raised e, {| answers := rest'; created := log'; slept := naps |}) in
      match rest with
      | [] => (Blocked, {| answers := []; created := log'; slept := naps |})
      | Failure e :: rest' => handler e rest'
      | Success response :: rest' =>
          match _calculate_cost response (arg_model args) with
          | inr cost =>
              (Returned (Some (content response, cost)),
               {| answers := rest'; created := log'; slept := naps |})
          | inl e => handler e rest'
          end
      end
  end.

Definition _make_api_call (model : string) (msgs : messages)
  (system_message : option string) (t : Transport)
  : outcome (option (string * number)) * Transport :=
  let formatted_messages := format_messages msgs system_message in
  retry_loop
    {| arg_model := model;
       arg_messages := formatted_messages;
       arg_timeout := timeout (llm config) |}
    (range (max_retries (llm config)))
    (answers t) (created t) (slept t).


Definition call_o3_mini (message : messages)
  (system_message : option string) (t : Transport) :=
  _make_api_call (o3_mini_model (llm config)) message system_message t.

End Client.

End LLMClient.

(** ** [agents/screening_agent.py] *)

Module ScreeningMetrics.

Record t : Type := {
  total_cost : float;
  total_disagreements : Z;
  total_processed : Z
}.

Definition __init__ : t :=
  {| total_cost := 0; total_disagreements := 0; total_processed := 0 |}.

Definition add_cost (self : t) (cost : float) : t :=
  {| total_cost := (total_cost self + cost)%float;
     total_disagreements := total_disagreements self;
     total_processed := total_processed self |}.

Definition add_disagreement (self : t) : t :=
  {| total_cost := total_cost self;
     total_disagreements := total_disagreements self + 1;
     total_processed := total_processed self |}.

Definition increment_processed (self : t) : t :=
  {| total_cost := total_cost self;
     total_disagreements := total_disagreements self;
     total_processed := total_processed self + 1 |}.

(** The dict that [get_summary] returns, one field per key. *)
Record summary : Type := {
  summary_total_cost : float;
  summary_total_disagreements : Z;
  summary_total_processed : Z;
  avg_cost_per_article : float
}.

Definition get_summary (self : t) : raising summary :=
  avg ← float_truediv_int (total_cost self) (Z.max (total_processed self) 1);
  inr {| summary_total_cost := total_cost self;
         summary_total_disagreements := total_disagreements self;
         summary_total_processed := total_processed self;
         avg_cost_per_article := avg |}.

(** The states a metrics object can be in: a fresh one, changed by its
    three methods. *)
Inductive reachable : t → Prop :=
| reach_init : reachable __init__
| reach_add_cost self cost :
    reachable self → nonneg cost → reachable (add_cost self cost)
| reach_add_disagreement self :
    reachable self → reachable (add_disagreement self)
| reach_increment_processed self :
    reachable self → reachable (increment_processed self).

End ScreeningMetrics.

(** *** The completion provider, seen from the tiers

    [gpt_4o_mini(message, tier)] and [gpt_o3_mini(message, tier)] return a
    pair [(text, cost)] or raise.  The provider is a script of replies, one
    per call, and the record of the calls made so far, oldest first.  The
    cost is a float, as the signatures of the two functions say. *)

Inductive llm_function : Type := gpt_4o_mini | gpt_o3_mini.

Record request : Type := {
  fn : llm_function;
  message : string;
  tier : string
}.

Inductive reply : Type :=
| Reply (text : string) (cost : float)
| Raises (e : exn).

Record Provider : Type := {
  replies : list reply;
  calls : list request
}.

(** The six operations are six copies of one loop,

      while True:
          try:
              text, cost = <call>
              self.metrics.add_cost(cost)
              <if/elif chain on text: a value, or `continue`>
              return text, value
          except Exception as e:
              raise

    which differ in the call and in the chain.  [while_true] is that loop,
    by recursion on the replies still to come: [chain text = None] is the
    [continue] branch. *)
Section Loop.
Context {A : Type}.
Variable call : request.
Variable chain : string → option A.

Fixpoint while_true (metrics : ScreeningMetrics.t) (rest : list reply)
  (log : list request)
  : outcome (string * A) * ScreeningMetrics.t * Provider :=
  let log' := log ++ [call] in
  match rest with
  | [] => (Blocked, metrics, {| replies := []; calls := log' |})
  | Raises e :: rest' =>
      (Raised e, metrics, {| replies := rest'; calls := log' |})
  | Reply text cost :: rest' =>
      let metrics' := ScreeningMetrics.add_cost metrics cost in
      match chain text with
      | Some value =>
          (Returned (text, value), metrics', {| replies := rest'; calls := log' |})
      | None => while_true metrics' rest' log'
      end
  end.
End Loop.

Module CitationClassifier.

Record t : Type := { metrics : ScreeningMetrics.t }.

Definition __init__ : t := {| metrics := ScreeningMetrics.__init__ |}.

Definition run {A} (call : request) (chain : string → option A)
  (self : t) (p : Provider) : outcome (string * A) * t * Provider :=
  let '(r, m, p') := while_true call chain (metrics self) (replies p) (calls p) in
  (r, {| metrics := m |}, p').

Definition classify_chain (justification : string) : option string :=
  if re.search "XXX" justification then Some "potentially relevant"%string
  else if re.search "YYY" justification then Some "uncertain"%string
  else if re.search "ZZZ" justification then Some "likely irrelevant"%string
  else None.

Definition classify (self : t)
  (sr_title sr_abstract candidate_title candidate_abstract prompt : string) :=
  run {| fn := gpt_4o_mini; message := prompt; tier := "classifier" |}
      classify_chain self.

Definition review_classification_chain (evaluation : string) : option bool :=
  if re.search "XXX" evaluation then Some true
  else if re.search "YYY" evaluation then Some false
  else None.

Definition review_classification (self : t) (review_prompt : string) :=
  run {| fn := gpt_o3_mini; message := review_prompt; tier := "classifier_reviewer" |}
      review_classification_chain self.

Definition improve_classification_chain (response : string) : option string :=
  if re.search "XXX" response then Some "potentially relevant"%string
  else if re.search "YYY" response then Some "uncertain"%string
  else if re.search "ZZZ" response then Some "likely irrelevant"%string
  else None.

Definition improve_classification (self : t) (improver_prompt : string) :=
  run {| fn := gpt_4o_mini; message := improver_prompt; tier := "" |}
      improve_classification_chain self.

End CitationClassifier.

Module DetailedScreener.

Record t : Type := { metrics : ScreeningMetrics.t }.

Definition __init__ : t := {| metrics := ScreeningMetrics.__init__ |}.

Definition run {A} (call : request) (chain : string → option A)
  (self : t) (p : Provider) : outcome (string * A) * t * Provider :=
  let '(r, m, p') := while_true call chain (metrics self) (replies p) (calls p) in
  (r, {| metrics := m |}, p').

Definition screen_chain (justification : string) : option string :=
  if re.search "YYY" justification then Some "included"%string
  else if re.search "XXX" justification then Some "excluded"%string
  else None.

Definition screen (self : t) (prompt : string) :=
  run {| fn := gpt_4o_mini; message := prompt; tier := "detailed_screener" |}
      screen_chain self.

Definition review_screening_chain (evaluation : string) : option bool :=
  if re.search "XXX" evaluation then Some true
  else if re.search "YYY" evaluation then Some false
  else None.

Definition review_screening (self : t) (review_prompt : string) :=
  run {| fn := gpt_o3_mini; message := review_prompt;
         tier := "detailed_screener_reviewer" |}
      review_screening_chain self.

Definition improve_screening_chain (response : string) : option string :=
  if re.search "XXX" response then Some "excluded"%string
  else if re.search "YYY" response then Some "included"%string
  else None.

Definition improve_screening (self : t) (improver_prompt : string) :=
  run {| fn := gpt_4o_mini; message := improver_prompt; tier := "" |}
      improve_screening_chain self.

End DetailedScreener.

Module TwoTierScreeningAgent.

(** [self.config] is stored and never read by the agent; it is left out. *)
Record t : Type := {
  classifier : CitationClassifier.t;
  detailed_screener : DetailedScreener.t
}.

Definition __init__ : t :=
  {| classifier := CitationClassifier.__init__;
     detailed_screener := DetailedScreener.__init__ |}.

Record metrics_summary : Type := {
  classifier_summary : ScreeningMetrics.summary;
  detailed_screener_summary : ScreeningMetrics.summary;
  total_cost : float;
  total_disagreements : Z
}.

Definition get_metrics_summary (self : t) : raising metrics_summary :=
  classifier_metrics ←
    ScreeningMetrics.get_summary (CitationClassifier.metrics (classifier self));
  detailed_metrics ←
    ScreeningMetrics.get_summary (DetailedScreener.metrics (detailed_screener self));
  let total_cost :=
    (ScreeningMetrics.summary_total_cost classifier_metrics
     + ScreeningMetrics.summary_total_cost detailed_metrics)%float in
  let total_disagreements :=
    (ScreeningMetrics.summary_total_disagreements classifier_metrics
     + ScreeningMetrics.summary_total_disagreements detailed_metrics)%Z in
  inr {| classifier_summary := classifier_metrics;
         detailed_screener_summary := detailed_metrics;
         total_cost := total_cost;
         total_disagreements := total_disagreements |}.

End TwoTierScreeningAgent.

(** ** The caller's side

    The agent does not drive the operations: its caller does, one call of
    one operation of one tier after the other, against the same provider.
    A [tier_call] is such a call with its arguments, an [answer] what it
    returns, and [perform] its effect on the agent and on the provider. *)

Inductive tier_call : Type :=
| Classify (sr_title sr_abstract candidate_title candidate_abstract prompt : string)
| ReviewClassification (review_prompt : string)
| ImproveClassification (improver_prompt : string)
| Screen (prompt : string)
| ReviewScreening (review_prompt : string)
| ImproveScreening (improver_prompt : string).

Inductive answer : Type :=
| DecisionOf (justification decision : string)
| AgreementOf (evaluation : string) (agreement : bool).

Definition answered {A} (f : string → A → answer) (o : outcome (string * A))
  : outcome answer :=
  match o with
  | Returned (text, a) => Returned (f text a)
  | Raised e => Raised e
  | Blocked => Blocked
  end.

Definition perform (c : tier_call) (agent : TwoTierScreeningAgent.t) (p : Provider)
  : outcome answer * TwoTierScreeningAgent.t * Provider :=
  let on_classifier {A} (f : string → A → answer)
        (r : outcome (string * A) * CitationClassifier.t * Provider) :=
    let '(o, tier, p') := r in
    (answered f o,
     {| TwoTierScreeningAgent.classifier := tier;
        TwoTierScreeningAgent.detailed_screener :=
          TwoTierScreeningAgent.detailed_screener agent |},
     p') in
  let on_detailed {A} (f : string → A → answer)
        (r : outcome (string * A) * DetailedScreener.t * Provider) :=
    let '(o, tier, p') := r in
    (answered f o,
     {| TwoTierScreeningAgent.classifier := TwoTierScreeningAgent.classifier agent;
        TwoTierScreeningAgent.detailed_screener := tier |},
     p') in
  match c with
  | Classify sr_title sr_abstract candidate_title candidate_abstract prompt =>
      on_classifier DecisionOf
        (CitationClassifier.classify (TwoTierScreeningAgent.classifier agent)
           sr_title sr_abstract candidate_title candidate_abstract prompt p)
  | ReviewClassification review_prompt =>
      on_classifier AgreementOf
        (CitationClassifier.review_classification
           (TwoTierScreeningAgent.classifier agent) review_prompt p)
  | ImproveClassification improver_prompt =>
      on_classifier DecisionOf
        (CitationClassifier.improve_classification
           (TwoTierScreeningAgent.classifier agent) improver_prompt p)
  | Screen prompt =>
      on_detailed DecisionOf
        (DetailedScreener.screen
           (TwoTierScreeningAgent.detailed_screener agent) prompt p)
  | ReviewScreening review_prompt =>
      on_detailed AgreementOf
        (DetailedScreener.review_screening
           (TwoTierScreeningAgent.detailed_screener agent) review_prompt p)
  | ImproveScreening improver_prompt =>
      on_detailed DecisionOf
        (DetailedScreener.improve_screening
           (TwoTierScreeningAgent.detailed_screener agent) improver_prompt p)
  end.

(** A sequence of calls, each performed whatever the one before it did,
    with what each one returned. *)
Fixpoint perform_all (cs : list tier_call) (agent : TwoTierScreeningAgent.t)
  (p : Provider) : list (outcome answer) * TwoTierScreeningAgent.t * Provider :=
  match cs with
  | [] => ([], agent, p)
  | c :: cs' =>
      let '(o, agent', p') := perform c agent p in
      let '(os, agent'', p'') := perform_all cs' agent' p' in
      (o :: os, agent'', p'')
  end.

(** The tier a call belongs to, and that tier's metrics in an agent. *)
Inductive tier_id : Type := ClassifierTier | DetailedTier.

#[global] Instance tier_id_eq_dec : EqDecision tier_id.
Proof. solve_decision. Defined.

Definition tier_of (c : tier_call) : tier_id :=
  match c with
  | Classify _ _ _ _ _ | ReviewClassification _ | ImproveClassification _ =>
      ClassifierTier
  | Screen _ | ReviewScreening _ | ImproveScreening _ => DetailedTier
  end.

Definition metrics_of (i : tier_id) (agent : TwoTierScreeningAgent.t)
  : ScreeningMetrics.t :=
  match i with
  | ClassifierTier =>
      CitationClassifier.metrics (TwoTierScreeningAgent.classifier agent)
  | DetailedTier =>
      DetailedScreener.metrics (TwoTierScreeningAgent.detailed_screener agent)
  end.

(** The provider call a tier call makes, again and again. *)
Definition request_of (c : tier_call) : request :=
  match c with
  | Classify _ _ _ _ prompt =>
      {| fn := gpt_4o_mini; message := prompt; tier := "classifier" |}
  | ReviewClassification review_prompt =>
      {| fn := gpt_o3_mini; message := review_prompt; tier := "classifier_reviewer" |}
  | ImproveClassification improver_prompt =>
      {| fn := gpt_4o_mini; message := improver_prompt; tier := "" |}
  | Screen prompt =>
      {| fn := gpt_4o_mini; message := prompt; tier := "detailed_screener" |}
  | ReviewScreening review_prompt =>
      {| fn := gpt_o3_mini; message := review_prompt;
         tier := "detailed_screener_reviewer" |}
  | ImproveScreening improver_prompt =>
      {| fn := gpt_4o_mini; message := improver_prompt; tier := "" |}
  end.

(** ** The specification's decision extractor (section 4.1)

    Given the text and an ordered list of (marker, outcome) pairs, scan
    case-insensitively for each marker in priority order and return the
    outcome of the first marker found. *)
Fixpoint first_match {A} (table : list (string * A)) (text : string) : option A :=
  match table with
  | [] => None
  | (marker, outcome) :: table' =>
      if re.search marker text then Some outcome else first_match table' text
  end.

(** The tables of sections 4.2 and 4.3, with the outcomes as the code
    spells them. *)
Definition classifier_table : list (string * string) :=
  [("XXX", "potentially relevant"); ("YYY", "uncertain"); ("ZZZ", "likely irrelevant")]%string.

Definition agreement_table : list (string * bool) :=
  [("XXX"%string, true); ("YYY"%string, false)].

Definition screen_table : list (string * string) :=
  [("YYY", "included"); ("XXX", "excluded")]%string.

Definition improve_screening_table : list (string * string) :=
  [("XXX", "excluded"); ("YYY", "included")]%string.

(** The table a call reads its answer from, and the markers it recognises. *)
Definition table_of (c : tier_call) : list (string * (string → answer)) :=
  let decisions (t : list (string * string)) :=
    map (λ '(marker, d), (marker, λ text, DecisionOf text d)) t in
  let agreements (t : list (string * bool)) :=
    map (λ '(marker, b), (marker, λ text, AgreementOf text b)) t in
  match c with
  | Classify _ _ _ _ _ | ImproveClassification _ => decisions classifier_table
  | ReviewClassification _ | ReviewScreening _ => agreements agreement_table
  | Screen _ => decisions screen_table
  | ImproveScreening _ => decisions improve_screening_table
  end.

Definition markers_of (c : tier_call) : list string := map fst (table_of c).

(** A reply with text in which no marker of the call is found. *)
Definition malformed (c : tier_call) (r : reply) : Prop :=
  match r with
  | Reply text _ => Forall (λ marker, re.search marker text = false) (markers_of c)
  | Raises _ => False
  end.

(** The costs of the replies that are not exceptions, in order. *)
Fixpoint costs (rs : list reply) : list float :=
  match rs with
  | [] => []
  | Reply _ cost :: rs' => cost :: costs rs'
  | Raises _ :: rs' => costs rs'
  end.

(** The float sum of [cs] added to [x] one after the other, left to right. *)
Definition add_all (x : float) (cs : list float) : float :=
  fold_left (λ acc c, (acc + c)%float) cs x.

(** What a call reads in a text: the answer of the first marker of its
    table, or nothing. *)
Definition read (c : tier_call) (text : string) : option answer :=
  (λ f : string → answer, f text) <$> first_match (table_of c) text.

(** What the caller gets of a loop that ran on answers. *)
Definition finish (o : outcome (string * answer)) : outcome answer :=
  match o with
  | Returned (_, a) => Returned a
  | Raised e => Raised e
  | Blocked => Blocked
  end.

(** A reply in which the chain of an operation finds nothing. *)
Definition unread {A} (chain : string → option A) (r : reply) : Prop :=
  match r with
  | Reply text _ => chain text = None
  | Raises _ => False
  end.

(** The metrics after [add_cost] of each of [cs] in turn. *)
Definition charge (m : ScreeningMetrics.t) (cs : list float) : ScreeningMetrics.t :=
  fold_left ScreeningMetrics.add_cost cs m.

(** The agent with the metrics of one tier replaced. *)
Definition with_metrics (i : tier_id) (m : ScreeningMetrics.t)
  (agent : TwoTierScreeningAgent.t) : TwoTierScreeningAgent.t :=
  match i with
  | ClassifierTier =>
      {| TwoTierScreeningAgent.classifier := {| CitationClassifier.metrics := m |};
         TwoTierScreeningAgent.detailed_screener :=
           TwoTierScreeningAgent.detailed_screener agent |}
  | DetailedTier =>
      {| TwoTierScreeningAgent.classifier := TwoTierScreeningAgent.classifier agent;
         TwoTierScreeningAgent.detailed_screener := {| DetailedScreener.metrics := m |} |}
  end.

(** The text with its ASCII capitals lowered: two texts with the same
    folding are the same up to case. *)
Fixpoint fold_case (s : string) : string :=
  match s with
  | EmptyString => EmptyString
  | String c s' => String (re.lower c) (fold_case s')
  end.

(** ** A metrics object driven from outside

    [ScreeningMetrics] has three methods that change it.  A [method] is
    one call of one of them, [invoke] its effect, and [invoke_all] the
    effect of a sequence of calls on one object, oldest first. *)
Inductive method : Type :=
| AddCost (cost : float)
| AddDisagreement
| IncrementProcessed.

Definition invoke (self : ScreeningMetrics.t) (c : method) : ScreeningMetrics.t :=
  match c with
  | AddCost cost => ScreeningMetrics.add_cost self cost
  | AddDisagreement => ScreeningMetrics.add_disagreement self
  | IncrementProcessed => ScreeningMetrics.increment_processed self
  end.

Definition invoke_all (self : ScreeningMetrics.t) (cs : list method)
  : ScreeningMetrics.t :=
  fold_left invoke cs self.

(** The costs given to [add_cost] in a sequence of calls, in order, and
    the numbers of calls of the two other methods. *)
Fixpoint added (cs : list method) : list float :=
  match cs with
  | [] => []
  | AddCost cost :: cs' => cost :: added cs'
  | _ :: cs' => added cs'
  end.

Fixpoint disagreements (cs : list method) : Z :=
  match cs with
  | [] => 0
  | AddDisagreement :: cs' => 1 + disagreements cs'
  | _ :: cs' => disagreements cs'
  end.

Fixpoint processed (cs : list method) : Z :=
  match cs with
  | [] => 0
  | IncrementProcessed :: cs' => 1 + processed cs'
  | _ :: cs' => processed cs'
  end.

(** The number of calls, among those that gave [os], that ended waiting
    on a request that the script does not answer. *)
Fixpoint blocked (os : list (outcome answer)) : nat :=
  match os with
  | [] => 0
  | Blocked :: os' => S (blocked os')
  | _ :: os' => blocked os'
  end.

(** * Properties *)

(** ** Binary64 arithmetic

    What the claims need of IEEE-754 addition and division, from the
    specification of the primitive floats ([SpecFloat], [FloatAxioms]):
    adding a non-negative float never gives less, and dividing by one
    changes nothing. *)

Section Binary64.
Local Open Scope Z_scope.

Local Abbreviation fexp := (SpecFloat.fexp prec emax).
Local Abbreviation digits p := (Zpos (digits2_pos p)).

Lemma fexp_eq e : fexp e = Z.max (e - 53) (-1074).
Proof. reflexivity. Qed.

Lemma digits2_pos_size p : digits2_pos p = Pos.size p.
Proof. induction p; simpl; congruence. Qed.

Lemma digits_bounds p : 2 ^ (digits p - 1) <= Zpos p < 2 ^ digits p.
Proof.
  rewrite digits2_pos_size. split.
  - pose proof (Pos.size_le p) as H.
    assert (Hs : Zpos (Pos.size p) = Z.succ (Zpos (Pos.size p) - 1)) by lia.
    assert (H2 : 2 ^ Zpos (Pos.size p) <= 2 * Zpos p).
    { change (2 * Zpos p) with (Zpos (p~0)). rewrite <- Pos2Z.inj_pow. apply Pos2Z.pos_le_pos. exact H. }
    rewrite Hs, Z.pow_succ_r in H2 by lia. lia.
  - pose proof (Pos.size_gt p) as H.
    rewrite <- Pos2Z.inj_pow. apply Pos2Z.pos_lt_pos. exact H.
Qed.

Lemma digits_mono p q k :
  0 <= k -> Zpos p * 2 ^ k <= Zpos q -> digits p + k <= digits q.
Proof.
  intros Hk Hle.
  destruct (Z.le_gt_cases (digits p + k) (digits q)) as [|Hlt]; [assumption|exfalso].
  pose proof (digits_bounds p) as [Hp _].
  pose proof (digits_bounds q) as [_ Hq].
  assert (H1 : 2 ^ digits q <= 2 ^ (digits p - 1 + k)) by (apply Z.pow_le_mono_r; lia).
  rewrite Z.pow_add_r in H1 by lia.
  assert (H2 : 2 ^ (digits p - 1) * 2 ^ k <= Zpos p * 2 ^ k).
  { apply Z.mul_le_mono_nonneg_r; [apply Z.pow_nonneg; lia | assumption]. }
  lia.
Qed.

Lemma fexp_mono a b : a <= b -> fexp a <= fexp b.
Proof. rewrite !fexp_eq. lia. Qed.

Lemma fexp_ge_emin a : -1074 <= fexp a.
Proof. rewrite fexp_eq. lia. Qed.

(** A right shift by one bit halves the mantissa, and by [n] bits divides
    it by [2 ^ n]. *)
Lemma shr_1_m mrs : 0 <= shr_m mrs -> shr_m (shr_1 mrs) = shr_m mrs / 2.
Proof.
  intros Hm. rewrite <- Z.div2_div.
  destruct mrs as [m r s]; simpl in Hm.
  destruct m as [|[p|p|]|p]; try reflexivity; lia.
Qed.

Lemma pow2_xO n : 2 ^ Zpos n~0 = 2 ^ Zpos n * 2 ^ Zpos n.
Proof. rewrite <- Z.pow_add_r by lia. f_equal; lia. Qed.

Lemma pow2_xI n : 2 ^ Zpos n~1 = 2 * (2 ^ Zpos n * 2 ^ Zpos n).
Proof. rewrite <- pow2_xO, <- Z.pow_succ_r by lia. f_equal; lia. Qed.

Lemma pow2_pos k : 0 <= k -> 0 < 2 ^ k.
Proof. intros. apply Z.pow_pos_nonneg; lia. Qed.

Lemma iter_shr_1_m n : forall mrs,
  0 <= shr_m mrs -> shr_m (SpecFloat.iter_pos shr_1 n mrs) = shr_m mrs / 2 ^ Zpos n.
Proof.
  induction n as [n IH|n IH|]; intros mrs Hm; cbn [SpecFloat.iter_pos].
  - assert (Hp := pow2_pos (Zpos n) ltac:(lia)).
    assert (H1 : 0 <= shr_m (shr_1 mrs))
      by (rewrite shr_1_m by assumption; apply Z.div_pos; lia).
    assert (H2 : 0 <= shr_m (SpecFloat.iter_pos shr_1 n (shr_1 mrs)))
      by (rewrite IH by assumption; apply Z.div_pos; lia).
    rewrite IH, IH, shr_1_m by assumption.
    rewrite pow2_xI, !Z.div_div by lia. reflexivity.
  - assert (Hp := pow2_pos (Zpos n) ltac:(lia)).
    assert (H2 : 0 <= shr_m (SpecFloat.iter_pos shr_1 n mrs))
      by (rewrite IH by assumption; apply Z.div_pos; lia).
    rewrite IH, IH by assumption.
    rewrite pow2_xO, !Z.div_div by lia. reflexivity.
  - rewrite shr_1_m by assumption. reflexivity.
Qed.

Lemma shr_m_exp mrs e n :
  0 <= shr_m mrs -> 0 <= n ->
  shr_m (fst (shr mrs e n)) = shr_m mrs / 2 ^ n /\ snd (shr mrs e n) = e + n.
Proof.
  intros Hm Hn. destruct n as [|p|p]; simpl; try lia.
  - rewrite Z.div_1_r. lia.
  - split; [apply iter_shr_1_m; assumption | reflexivity].
Qed.

Lemma shr_fexp_pos (p : positive) (e : Z) (l : location) :
  -1074 <= e ->
  exists mrs q,
    shr_fexp prec emax (Zpos p) e l = (mrs, Z.max e (fexp (digits p + e))) /\
    shr_m mrs = Zpos q /\
    Zpos q = Zpos p / 2 ^ (Z.max e (fexp (digits p + e)) - e).
Proof.
  intros He. unfold shr_fexp. cbn [Zdigits2].
  set (n := fexp (digits p + e) - e).
  assert (Hm : 0 <= shr_m (shr_record_of_loc (Zpos p) l))
    by (destruct l as [|[]]; simpl; lia).
  assert (Hm' : shr_m (shr_record_of_loc (Zpos p) l) = Zpos p)
    by (destruct l as [|[]]; reflexivity).
  destruct (Z.le_gt_cases n 0) as [Hn|Hn].
  - exists (shr_record_of_loc (Zpos p) l), p.
    replace (Z.max e (fexp (digits p + e))) with e by lia.
    rewrite Z.sub_diag, Z.div_1_r. repeat split; [|assumption].
    unfold shr. destruct n; try lia; reflexivity.
  - destruct (shr_m_exp (shr_record_of_loc (Zpos p) l) e n Hm ltac:(lia)) as [H1 H2].
    destruct (shr (shr_record_of_loc (Zpos p) l) e n) as [mrs e'] eqn:Hs.
    simpl in H1, H2. rewrite Hm' in H1.
    replace (Z.max e (fexp (digits p + e))) with e' by lia.
    replace (e' - e) with n by lia.
    assert (Hq : 0 < Zpos p / 2 ^ n).
    { apply Z.div_str_pos. split; [apply pow2_pos; lia|].
      pose proof (digits_bounds p) as [Hp _].
      assert (Hle : 2 ^ n <= 2 ^ (digits p - 1)).
      { apply Z.pow_le_mono_r; [lia|]. unfold n. rewrite fexp_eq. lia. }
      lia. }
    destruct (Zpos p / 2 ^ n) as [|q|q] eqn:Hd; try lia.
    exists mrs, q. repeat split; assumption.
Qed.

Lemma round_nearest_even_bounds m l :
  m <= round_nearest_even m l <= m + 1.
Proof.
  destruct l as [|[]]; simpl; try lia. destruct (Z.even m); lia.
Qed.

(** Rounding a value that is at least the canonical float [(mx, ex)]
    gives a float that is at least [(mx, ex)], or infinity. *)
Lemma binary_round_aux_ge (mx : positive) (ex : Z) (M : positive) (e : Z) (l : location) :
  fexp (digits mx + ex) = ex ->
  e <= ex -> -1074 <= e ->
  Zpos mx * 2 ^ (ex - e) <= Zpos M ->
  binary_round_aux prec emax false (Zpos M) e l = S754_infinity false \/
  exists m2 e2,
    binary_round_aux prec emax false (Zpos M) e l = S754_finite false m2 e2 /\
    (ex < e2 \/ (ex = e2 /\ Zpos mx <= Zpos m2)).
Proof.
  intros Hcan Hle Hmin Hval.
  assert (HE : digits mx + ex <= digits M + e).
  { pose proof (digits_mono mx M (ex - e) ltac:(lia) Hval). lia. }
  apply fexp_mono in HE. rewrite Hcan in HE.
  unfold binary_round_aux.
  destruct (shr_fexp_pos M e l Hmin) as (mrs1 & q1 & -> & Hq1 & Hv1).
  set (e1 := Z.max e (fexp (digits M + e))) in *.
  assert (He1 : ex <= e1) by lia.
  pose proof (round_nearest_even_bounds (shr_m mrs1) (loc_of_shr_record mrs1)) as Hr.
  rewrite Hq1 in Hr |- *.
  destruct (round_nearest_even (Zpos q1) (loc_of_shr_record mrs1)) as [|p1|p1]; try lia.
  destruct (shr_fexp_pos p1 e1 loc_Exact ltac:(lia)) as (mrs2 & q2 & -> & Hq2 & Hv2).
  set (e2 := Z.max e1 (fexp (digits p1 + e1))) in *.
  rewrite Hq2.
  destruct (e2 <=? emax - prec); [right|left; reflexivity].
  exists q2, e2. split; [reflexivity|].
  destruct (Z.eq_dec ex e2) as [Heq|Hne]; [right|left; lia].
  split; [assumption|].
  assert (e1 = ex) by lia. assert (e2 = e1) by lia.
  replace (e2 - e1) with 0 in Hv2 by lia. rewrite Z.div_1_r in Hv2.
  assert (Zpos mx <= Zpos q1); [|lia].
  rewrite Hv1. replace (e1 - e) with (ex - e) by lia.
  apply Z.div_le_lower_bound; [apply pow2_pos; lia | lia].
Qed.

Lemma shl_align_le (m : positive) (e e' : Z) :
  e' <= e -> Zpos (fst (shl_align m e e')) = Zpos m * 2 ^ (e - e').
Proof.
  intros Hle. unfold shl_align.
  destruct (e' - e) as [|d|d] eqn:Hd; try lia; cbn [fst].
  - replace (e - e') with 0 by lia. lia.
  - replace (e - e') with (Zpos d) by lia. clear.
    induction d as [|d IH] using Pos.peano_ind.
    + cbn [Pos.iter]. rewrite Pos2Z.inj_xO. lia.
    + change (@PosDef.Pos.iter) with (@Pos.iter).
      rewrite Pos.iter_succ, Pos2Z.inj_xO, IH, Pos2Z.inj_succ, Z.pow_succ_r by lia. lia.
Qed.

Lemma bounded_canonical m e :
  bounded prec emax m e = true -> fexp (digits m + e) = e /\ e <= 971.
Proof.
  unfold bounded, canonical_mantissa. intros H.
  apply andb_true_iff in H as [H1 H2].
  apply Z.eqb_eq in H1. apply Z.leb_le in H2. split; [exact H1 | exact H2].
Qed.

Lemma SFleb_finite_ge mx ex m2 e2 :
  ex < e2 \/ (ex = e2 /\ Zpos mx <= Zpos m2) ->
  SFleb (S754_finite false mx ex) (S754_finite false m2 e2) = true.
Proof.
  unfold SFleb, SFcompare. intros [Hlt|[-> Hle]].
  - apply Z.compare_lt_iff in Hlt. rewrite Hlt. reflexivity.
  - rewrite Z.compare_refl. change (PosDef.Pos.compare_cont Eq mx m2) with (Pos.compare mx m2).
    destruct (Pos.compare mx m2) eqn:Hc; try reflexivity.
    apply Pos.compare_gt_iff in Hc. lia.
Qed.

Lemma SFleb_refl x : x <> S754_nan -> SFleb x x = true.
Proof.
  unfold SFleb, SFcompare. destruct x as [s|s| |s m e]; try congruence; intros _.
  all: destruct s; try reflexivity.
  all: change (@PosDef.Pos.compare_cont) with (@Pos.compare_cont);
    rewrite Z.compare_refl, Pos.compare_cont_refl; reflexivity.
Qed.

(** Adding a non-negative float to a non-negative float does not make it
    smaller, and the sum is non-negative again. *)
Lemma SFadd_nonneg_ge x c :
  valid_binary x = true -> valid_binary c = true ->
  SFnonneg x -> SFnonneg c ->
  SFleb x (SF64add x c) = true /\ SFnonneg (SF64add x c).
Proof.
  unfold SFnonneg. intros Vx Vc Hx Hc.
  destruct x as [sx|sx| |sx mx ex], c as [sc|sc| |sc mc ec];
    try discriminate Hx; try discriminate Hc;
    try (destruct sx; try discriminate Hx); try (destruct sc; try discriminate Hc);
    try (split; reflexivity);
    try (split; [apply SFleb_refl; discriminate | assumption]).
  simpl in Vx, Vc.
  apply bounded_canonical in Vx as [Cx Bx]. apply bounded_canonical in Vc as [Cc Bc].
  unfold SF64add, SFadd. cbn [cond_Zopp].
  set (ez := Z.min ex ec).
  pose proof (fexp_ge_emin (digits mx + ex)) as Hx1.
  pose proof (fexp_ge_emin (digits mc + ec)) as Hc1.
  pose proof (shl_align_le mx ex ez ltac:(lia)) as Ha.
  pose proof (shl_align_le mc ec ez ltac:(lia)) as Hb.
  destruct (shl_align mx ex ez) as [a ea], (shl_align mc ec ez) as [b eb]. cbn [fst] in *.
  change (Zpos a + Zpos b) with (Zpos (a + b)).
  unfold binary_normalize, binary_round.
  assert (Hval : Zpos mx * 2 ^ (ex - ez) <= Zpos (a + b)) by lia.
  assert (HE : ex <= fexp (digits (a + b) + ez)).
  { rewrite <- Cx at 1. apply fexp_mono.
    pose proof (digits_mono mx (a + b) (ex - ez) ltac:(lia) Hval). lia. }
  assert (Hsh : shl_align (a + b) ez (fexp (digits (a + b) + ez)) = ((a + b)%positive, ez)).
  { unfold shl_align. destruct (fexp (digits (a + b) + ez) - ez) eqn:Hd; try reflexivity; lia. }
  rewrite Hsh.
  destruct (binary_round_aux_ge mx ex (a + b) ez loc_Exact Cx ltac:(lia) ltac:(lia) Hval)
    as [-> | (m2 & e2 & -> & Hge)].
  - split; reflexivity.
  - split; [apply SFleb_finite_ge; assumption | reflexivity].
Qed.

Lemma Prim2SF_zero : Prim2SF 0 = S754_zero false.
Proof. reflexivity. Qed.

Lemma nonneg_spec x : (0 <=? x)%float = true <-> SFnonneg (Prim2SF x).
Proof. unfold SFnonneg. rewrite leb_spec, Prim2SF_zero. reflexivity. Qed.

Theorem add_nonneg_ge (x c : float) :
  (0 <=? x)%float = true -> (0 <=? c)%float = true ->
  (x <=? x + c)%float = true /\ (0 <=? x + c)%float = true.
Proof.
  rewrite !nonneg_spec, leb_spec, add_spec. intros Hx Hc.
  apply SFadd_nonneg_ge; auto using Prim2SF_valid.
Qed.

(** Shifting out zeros is exact. *)
Lemma iter_shr_1_exact n : forall m,
  0 <= m ->
  SpecFloat.iter_pos shr_1 n (Build_shr_record (m * 2 ^ Zpos n) false false)
  = Build_shr_record m false false.
Proof.
  assert (H1 : forall m, 0 <= m ->
            shr_1 (Build_shr_record (m * 2) false false) = Build_shr_record m false false).
  { intros m Hm. rewrite Z.mul_comm. destruct m as [|p|p]; try lia; reflexivity. }
  induction n as [n IH|n IH|]; intros m Hm; cbn [SpecFloat.iter_pos].
  - assert (Hp := pow2_pos (Zpos n) ltac:(lia)).
    rewrite pow2_xI.
    replace (m * (2 * (2 ^ Zpos n * 2 ^ Zpos n))) with (m * 2 ^ Zpos n * 2 ^ Zpos n * 2) by lia.
    rewrite H1, IH, IH by lia. reflexivity.
  - assert (Hp := pow2_pos (Zpos n) ltac:(lia)).
    rewrite pow2_xO, Z.mul_assoc, IH, IH by lia. reflexivity.
  - change (2 ^ 1) with 2. apply H1, Hm.
Qed.

Lemma digits_mul_pow2 m k :
  0 <= k -> Zdigits2 (Zpos m * 2 ^ k) = digits m + k.
Proof.
  intros Hk. assert (Hp := pow2_pos k Hk).
  destruct (Zpos m * 2 ^ k) as [|q|q] eqn:Hq; try lia. cbn [Zdigits2].
  pose proof (digits_mono m q k Hk ltac:(lia)) as H1.
  destruct (Z.le_gt_cases (digits q) (digits m + k)) as [|Hgt]; [lia|exfalso].
  pose proof (digits_bounds q) as [Hq1 _]. pose proof (digits_bounds m) as [_ Hm2].
  assert (2 ^ (digits m + k) <= 2 ^ (digits q - 1)) by (apply Z.pow_le_mono_r; lia).
  rewrite Z.pow_add_r in * by lia. nia.
Qed.

(** Rounding a canonical float written with [k] more zero bits gives it back. *)
Lemma binary_round_aux_exact s m e k :
  bounded prec emax m e = true -> 0 <= k ->
  binary_round_aux prec emax s (Zpos m * 2 ^ k) (e - k) loc_Exact = S754_finite s m e.
Proof.
  intros Hb Hk. destruct (bounded_canonical m e Hb) as [Hc He].
  assert (Hstep : forall m', shr_fexp prec emax (Zpos m) e loc_Exact = m' ->
            m' = (Build_shr_record (Zpos m) false false, e)).
  { intros m' <-. unfold shr_fexp. cbn [Zdigits2]. rewrite Hc, Z.sub_diag. reflexivity. }
  assert (H1 : shr_fexp prec emax (Zpos m * 2 ^ k) (e - k) loc_Exact
               = (Build_shr_record (Zpos m) false false, e)).
  { unfold shr_fexp. rewrite digits_mul_pow2 by assumption.
    replace (digits m + k + (e - k)) with (digits m + e) by lia. rewrite Hc.
    replace (e - (e - k)) with k by lia.
    cbn [shr_record_of_loc]. unfold shr. destruct k as [|k|k]; try lia.
    - rewrite Z.mul_1_r, Z.sub_0_r. reflexivity.
    - rewrite iter_shr_1_exact by lia. f_equal. lia. }
  unfold binary_round_aux. rewrite H1. cbn [shr_m loc_of_shr_record round_nearest_even].
  rewrite (Hstep _ eq_refl). cbn [shr_m].
  replace (e <=? emax - prec) with true; [reflexivity|].
  symmetry. apply Z.leb_le. exact He.
Qed.

Lemma SFdiv_one x : valid_binary x = true -> SF64div x SFone = x.
Proof.
  intros Vx. destruct x as [sx|sx| |sx mx ex]; try (destruct sx; reflexivity); try reflexivity.
  simpl in Vx. destruct (bounded_canonical mx ex Vx) as [Hc He].
  unfold SF64div, SFone, SFdiv, SFdiv_core_binary.
  cbn [Zdigits2]. change (digits 4503599627370496) with 53.
  set (D := digits mx + ex) in *.
  set (e' := Z.min (fexp (D - (53 + -52))) (ex - -52)).
  assert (Hk : e' = ex \/ e' = ex - 1) by (unfold e'; rewrite fexp_eq in *; lia).
  set (k := ex - e').
  assert (Hs : ex - -52 - e' = 52 + k) by (unfold k; lia).
  rewrite Hs.
  destruct (52 + k) as [|sh|sh] eqn:Hsh; try lia. rewrite <- Hsh.
  rewrite Z.shiftl_mul_pow2 by lia.
  assert (Hdiv : Z.div_eucl (Zpos mx * 2 ^ (52 + k)) 4503599627370496 = (Zpos mx * 2 ^ k, 0)).
  { assert (Hp := pow2_pos k ltac:(lia)).
    pose proof (Z.div_eucl_eq (Zpos mx * 2 ^ (52 + k)) 4503599627370496 ltac:(lia)) as Heq.
    pose proof (Z.mod_pos_bound (Zpos mx * 2 ^ (52 + k)) 4503599627370496 ltac:(lia)) as Hbd.
    unfold Z.modulo in Hbd.
    destruct (Z.div_eucl (Zpos mx * 2 ^ (52 + k)) 4503599627370496) as [q r].
    rewrite Z.pow_add_r in Heq by lia. change (2 ^ 52) with 4503599627370496 in Heq.
    assert (q = Zpos mx * 2 ^ k) by nia. assert (r = 0) by nia. congruence. }
  rewrite Hdiv. change (new_location 4503599627370496 0) with loc_Exact.
  rewrite xorb_false_r. replace e' with (ex - k) by (unfold k; lia).
  apply binary_round_aux_exact; [assumption | lia].
Qed.

Theorem div_one (x : float) : (x / 1)%float = x.
Proof.
  apply Prim2SF_inj. rewrite div_spec.
  change (Prim2SF 1) with SFone. apply SFdiv_one, Prim2SF_valid.
Qed.

End Binary64.

(** ** Searching a text *)

Section Search.
Local Open Scope string_scope.

Lemma match_here_iff pattern text :
  re.match_here pattern text = true ↔
  ∃ mid post, text = mid +:+ post ∧ fold_case mid = fold_case pattern.
Proof.
  revert text. induction pattern as [|p pattern IH]; intros text; simpl.
  - split; [intros _|reflexivity]. exists "", text. split; reflexivity.
  - destruct text as [|c text].
    + split; [discriminate|]. intros ([|? mid] & post & H1 & H2); discriminate.
    + rewrite andb_true_iff, IH. unfold re.ieq. rewrite Ascii.eqb_eq. split.
      * intros (Hc & mid & post & -> & Hf). exists (String c mid), post.
        split; [reflexivity|]. simpl. congruence.
      * intros ([|c' mid] & post & H1 & H2); [discriminate|].
        simpl in H1, H2. injection H1 as -> ->. injection H2 as Hc Hf.
        split; [congruence|]. exists mid, post. split; [reflexivity|assumption].
Qed.

(** [re.search] finds the pattern exactly when the text has, somewhere,
    a piece that is the pattern up to case. *)
Lemma search_iff pattern text :
  re.search pattern text = true ↔
  ∃ pre mid post, text = pre +:+ mid +:+ post ∧ fold_case mid = fold_case pattern.
Proof.
  induction text as [|c text IH]; simpl.
  - rewrite orb_false_r, match_here_iff. split.
    + intros (mid & post & H1 & H2). exists "", mid, post. split; assumption.
    + intros ([|? pre] & mid & post & H1 & H2); [|discriminate].
      exists mid, post. split; assumption.
  - rewrite orb_true_iff, match_here_iff, IH. split.
    + intros [(mid & post & H1 & H2) | (pre & mid & post & -> & H2)].
      * exists "", mid, post. split; assumption.
      * exists (String c pre), mid, post. split; [reflexivity|assumption].
    + intros ([|c' pre] & mid & post & H1 & H2).
      * left. exists mid, post. split; assumption.
      * right. simpl in H1. injection H1 as -> ->.
        exists pre, mid, post. split; [reflexivity|assumption].
Qed.

Lemma search_surrounded pattern pre mid post :
  fold_case mid = fold_case pattern →
  re.search pattern (pre +:+ mid +:+ post) = true.
Proof. intros H. apply search_iff. exists pre, mid, post. split; [reflexivity|exact H]. Qed.

End Search.

(** ** The retry loop *)

Lemma charge_total_cost m cs :
  ScreeningMetrics.total_cost (charge m cs) = add_all (ScreeningMetrics.total_cost m) cs.
Proof. revert m. induction cs as [|c cs IH]; intros m; [reflexivity|]. apply IH. Qed.

Lemma charge_counters m cs :
  ScreeningMetrics.total_disagreements (charge m cs) = ScreeningMetrics.total_disagreements m ∧
  ScreeningMetrics.total_processed (charge m cs) = ScreeningMetrics.total_processed m.
Proof.
  revert m. induction cs as [|c cs IH]; intros m; [split; reflexivity|].
  destruct (IH (ScreeningMetrics.add_cost m c)) as [H1 H2]. split; assumption.
Qed.

Lemma charge_app m cs cs' : charge m (cs ++ cs') = charge (charge m cs) cs'.
Proof. apply fold_left_app. Qed.

Lemma costs_app rs rs' : costs (rs ++ rs') = costs rs ++ costs rs'.
Proof.
  induction rs as [|[text cost|e] rs IH]; simpl; [reflexivity| |assumption].
  f_equal. exact IH.
Qed.

Section LoopFacts.
Context {A : Type} (call : request) (chain : string → option A).

Local Lemma log_step (log : list request) n :
  (log ++ [call]) ++ replicate n call = log ++ replicate (S n) call.
Proof. rewrite <- app_assoc. reflexivity. Qed.

Local Lemma log_last (log : list request) n :
  (log ++ replicate n call) ++ [call] = log ++ replicate (S n) call.
Proof.
  rewrite <- app_assoc. f_equal.
  induction n as [|n IH]; [reflexivity|]. simpl. f_equal. exact IH.
Qed.

(** Every reply before the first one that the chain reads, or that is
    an exception, is paid for and asked again. *)
Lemma while_true_skip pre rest m log :
  Forall (unread chain) pre →
  while_true call chain m (pre ++ rest) log =
  while_true call chain (charge m (costs pre)) rest (log ++ replicate (length pre) call).
Proof.
  intros Hpre. revert m log.
  induction Hpre as [|r pre Hr Hpre IH]; intros m log.
  - simpl. rewrite app_nil_r. reflexivity.
  - destruct r as [text cost|e]; [|destruct Hr]. simpl in Hr.
    cbn [app while_true costs length]. rewrite Hr, IH, log_step. reflexivity.
Qed.

Lemma while_true_returned pre text cost value post m log :
  Forall (unread chain) pre → chain text = Some value →
  while_true call chain m (pre ++ Reply text cost :: post) log =
  (Returned (text, value),
   ScreeningMetrics.add_cost (charge m (costs pre)) cost,
   {| replies := post; calls := log ++ replicate (S (length pre)) call |}).
Proof.
  intros Hpre Hv. rewrite while_true_skip by assumption.
  cbn [while_true]. rewrite Hv, log_last. reflexivity.
Qed.

Lemma while_true_raised pre e post m log :
  Forall (unread chain) pre →
  while_true call chain m (pre ++ Raises e :: post) log =
  (Raised e, charge m (costs pre),
   {| replies := post; calls := log ++ replicate (S (length pre)) call |}).
Proof.
  intros Hpre. rewrite while_true_skip by assumption.
  cbn [while_true]. rewrite log_last. reflexivity.
Qed.

Lemma while_true_blocked rest m log :
  Forall (unread chain) rest →
  while_true call chain m rest log =
  (Blocked, charge m (costs rest),
   {| replies := []; calls := log ++ replicate (S (length rest)) call |}).
Proof.
  intros Hrest. rewrite <- (app_nil_r rest) at 1. rewrite while_true_skip by assumption.
  cbn [while_true]. rewrite log_last. reflexivity.
Qed.

(** The three shapes of a script, by its first reply that is read or is
    an exception. *)
Lemma script_shape rest :
  (∃ pre text cost value post,
      rest = pre ++ Reply text cost :: post ∧ Forall (unread chain) pre ∧
      chain text = Some value) ∨
  (∃ pre e post, rest = pre ++ Raises e :: post ∧ Forall (unread chain) pre) ∨
  Forall (unread chain) rest.
Proof.
  induction rest as [|r rest IH].
  - right; right. constructor.
  - destruct r as [text cost|e].
    + destruct (chain text) as [value|] eqn:Hv.
      * left. exists [], text, cost, value, rest. repeat split; [constructor|exact Hv].
      * destruct IH as [(pre & text' & cost' & value & post & -> & Hpre & Hv')
                       |[(pre & e & post & -> & Hpre) | Hall]].
        -- left. exists (Reply text cost :: pre), text', cost', value, post.
           repeat split; [constructor; assumption|exact Hv'].
        -- right; left. exists (Reply text cost :: pre), e, post.
           split; [reflexivity|constructor; assumption].
        -- right; right. constructor; assumption.
    + right; left. exists [], e, rest. split; [reflexivity|constructor].
Qed.

(** The loop uses a prefix of the script, adds the costs of the replies it
    used, in order, and touches nothing else of the metrics. *)
Lemma while_true_used m rest log :
  ∃ used,
    rest = used ++ replies (while_true call chain m rest log).2 ∧
    (while_true call chain m rest log).1.2 = charge m (costs used).
Proof.
  destruct (script_shape rest)
    as [(pre & text & cost & value & post & -> & Hpre & Hv)
       |[(pre & e & post & -> & Hpre) | Hall]].
  - rewrite (while_true_returned _ _ _ value) by assumption.
    exists (pre ++ [Reply text cost]). cbn [fst snd replies]. split.
    + rewrite <- app_assoc. reflexivity.
    + rewrite costs_app, charge_app. reflexivity.
  - rewrite while_true_raised by assumption.
    exists (pre ++ [Raises e]). cbn [fst snd replies]. split.
    + rewrite <- app_assoc. reflexivity.
    + rewrite costs_app, app_nil_r. reflexivity.
  - rewrite while_true_blocked by assumption.
    exists rest. cbn [fst snd replies]. split; [rewrite app_nil_r|]; reflexivity.
Qed.

End LoopFacts.

(** ** The six operations are the loop on their tables *)

Lemma while_true_ext {A} call (chain chain' : string → option A) m rest log :
  (∀ text, chain text = chain' text) →
  while_true call chain m rest log = while_true call chain' m rest log.
Proof.
  intros Hext. revert m log.
  induction rest as [|[text cost|e] rest IH]; intros m log; cbn [while_true];
    [reflexivity| |reflexivity].
  rewrite Hext, IH. reflexivity.
Qed.

Lemma while_true_fmap {A} call (chain : string → option A) (f : string → A → answer)
  m rest log :
  while_true call (λ text, f text <$> chain text) m rest log =
  let '(o, m', p') := while_true call chain m rest log in
  (match o with
   | Returned (text, a) => Returned (text, f text a)
   | Raised e => Raised e
   | Blocked => Blocked
   end, m', p').
Proof.
  revert m log.
  induction rest as [|[text cost|e] rest IH]; intros m log; cbn [while_true];
    [reflexivity| |reflexivity].
  destruct (chain text) as [a|]; [reflexivity|]. cbn [fmap option_fmap option_map]. apply IH.
Qed.

Lemma read_classify a b c d prompt text :
  read (Classify a b c d prompt) text = DecisionOf text <$> CitationClassifier.classify_chain text.
Proof.
  unfold read, CitationClassifier.classify_chain. cbn.
  repeat (destruct (re.search _ text); [reflexivity|]). reflexivity.
Qed.

Lemma read_review_classification prompt text :
  read (ReviewClassification prompt) text
  = AgreementOf text <$> CitationClassifier.review_classification_chain text.
Proof.
  unfold read, CitationClassifier.review_classification_chain. cbn.
  repeat (destruct (re.search _ text); [reflexivity|]). reflexivity.
Qed.

Lemma read_improve_classification prompt text :
  read (ImproveClassification prompt) text
  = DecisionOf text <$> CitationClassifier.improve_classification_chain text.
Proof.
  unfold read, CitationClassifier.improve_classification_chain. cbn.
  repeat (destruct (re.search _ text); [reflexivity|]). reflexivity.
Qed.

Lemma read_screen prompt text :
  read (Screen prompt) text = DecisionOf text <$> DetailedScreener.screen_chain text.
Proof.
  unfold read, DetailedScreener.screen_chain. cbn.
  repeat (destruct (re.search _ text); [reflexivity|]). reflexivity.
Qed.

Lemma read_review_screening prompt text :
  read (ReviewScreening prompt) text
  = AgreementOf text <$> DetailedScreener.review_screening_chain text.
Proof.
  unfold read, DetailedScreener.review_screening_chain. cbn.
  repeat (destruct (re.search _ text); [reflexivity|]). reflexivity.
Qed.

Lemma read_improve_screening prompt text :
  read (ImproveScreening prompt) text
  = DecisionOf text <$> DetailedScreener.improve_screening_chain text.
Proof.
  unfold read, DetailedScreener.improve_screening_chain. cbn.
  repeat (destruct (re.search _ text); [reflexivity|]). reflexivity.
Qed.

(** Each operation of each tier is [while_true] with the call's request,
    reading the call's table, on the metrics of the call's tier. *)
Lemma perform_loop c agent p :
  perform c agent p =
  let '(o, m, p') :=
    while_true (request_of c) (read c) (metrics_of (tier_of c) agent)
      (replies p) (calls p) in
  (finish o, with_metrics (tier_of c) m agent, p').
Proof.
  destruct agent as [[mc] [md]], p as [rs log].
  destruct c as [a b c d prompt|prompt|prompt|prompt|prompt|prompt];
    cbn [perform tier_of metrics_of request_of with_metrics replies calls
         TwoTierScreeningAgent.classifier TwoTierScreeningAgent.detailed_screener
         CitationClassifier.metrics DetailedScreener.metrics];
    unfold CitationClassifier.classify, CitationClassifier.review_classification,
      CitationClassifier.improve_classification, CitationClassifier.run,
      DetailedScreener.screen, DetailedScreener.review_screening,
      DetailedScreener.improve_screening, DetailedScreener.run;
    cbn [replies calls CitationClassifier.metrics DetailedScreener.metrics].
  - rewrite (while_true_ext _ _ _ _ _ _ (read_classify a b c d prompt)), while_true_fmap.
    destruct (while_true _ _ mc rs log) as [[[[text v]|e|] m'] p']; reflexivity.
  - rewrite (while_true_ext _ _ _ _ _ _ (read_review_classification prompt)), while_true_fmap.
    destruct (while_true _ _ mc rs log) as [[[[text v]|e|] m'] p']; reflexivity.
  - rewrite (while_true_ext _ _ _ _ _ _ (read_improve_classification prompt)), while_true_fmap.
    destruct (while_true _ _ mc rs log) as [[[[text v]|e|] m'] p']; reflexivity.
  - rewrite (while_true_ext _ _ _ _ _ _ (read_screen prompt)), while_true_fmap.
    destruct (while_true _ _ md rs log) as [[[[text v]|e|] m'] p']; reflexivity.
  - rewrite (while_true_ext _ _ _ _ _ _ (read_review_screening prompt)), while_true_fmap.
    destruct (while_true _ _ md rs log) as [[[[text v]|e|] m'] p']; reflexivity.
  - rewrite (while_true_ext _ _ _ _ _ _ (read_improve_screening prompt)), while_true_fmap.
    destruct (while_true _ _ md rs log) as [[[[text v]|e|] m'] p']; reflexivity.
Qed.

(** A reply is malformed for a call exactly when the call reads nothing
    in it. *)
Lemma malformed_unread c r : malformed c r ↔ unread (read c) r.
Proof.
  destruct r as [text cost|e]; [|reflexivity].
  unfold malformed, unread, read.
  destruct c; cbn; rewrite ?Forall_cons, Forall_nil;
    repeat (destruct (re.search _ text)); cbn; split; intros H;
    try discriminate; try reflexivity; try tauto;
    decompose [and] H; discriminate.
Qed.

Lemma Forall_malformed_unread c rs :
  Forall (malformed c) rs ↔ Forall (unread (read c)) rs.
Proof. apply Forall_proper; [intros r; apply malformed_unread | reflexivity]. Qed.

(** ** What a call does, by the shape of the script *)

Section Calls.
Variable c : tier_call.
Variable agent : TwoTierScreeningAgent.t.

Local Abbreviation before := (metrics_of (tier_of c) agent).

(** A well-formed reply after [pre] malformed ones: the call returns what
    it reads in it, having paid every reply and asked [S (length pre)]
    times. *)
Lemma perform_returned pre text cost a post log :
  Forall (malformed c) pre → read c text = Some a →
  perform c agent {| replies := pre ++ Reply text cost :: post; calls := log |} =
  (Returned a,
   with_metrics (tier_of c) (ScreeningMetrics.add_cost (charge before (costs pre)) cost) agent,
   {| replies := post; calls := log ++ replicate (S (length pre)) (request_of c) |}).
Proof.
  intros Hpre Ha. apply Forall_malformed_unread in Hpre.
  rewrite perform_loop. cbn [replies calls].
  rewrite (while_true_returned _ _ _ _ _ a) by assumption. reflexivity.
Qed.

(** An exception after [pre] malformed replies: the call raises it. *)
Lemma perform_raised pre e post log :
  Forall (malformed c) pre →
  perform c agent {| replies := pre ++ Raises e :: post; calls := log |} =
  (Raised e,
   with_metrics (tier_of c) (charge before (costs pre)) agent,
   {| replies := post; calls := log ++ replicate (S (length pre)) (request_of c) |}).
Proof.
  intros Hpre. apply Forall_malformed_unread in Hpre.
  rewrite perform_loop. cbn [replies calls].
  rewrite while_true_raised by assumption. reflexivity.
Qed.

(** Nothing but malformed replies: the call is still asking. *)
Lemma perform_blocked rest log :
  Forall (malformed c) rest →
  perform c agent {| replies := rest; calls := log |} =
  (Blocked,
   with_metrics (tier_of c) (charge before (costs rest)) agent,
   {| replies := []; calls := log ++ replicate (S (length rest)) (request_of c) |}).
Proof.
  intros Hrest. apply Forall_malformed_unread in Hrest.
  rewrite perform_loop. cbn [replies calls].
  rewrite while_true_blocked by assumption. reflexivity.
Qed.

(** Every script has one of the three shapes. *)
Lemma call_shape rest :
  (∃ pre text cost a post,
      rest = pre ++ Reply text cost :: post ∧ Forall (malformed c) pre ∧
      read c text = Some a) ∨
  (∃ pre e post, rest = pre ++ Raises e :: post ∧ Forall (malformed c) pre) ∨
  Forall (malformed c) rest.
Proof.
  destruct (script_shape (read c) rest)
    as [(pre & text & cost & value & post & -> & Hpre & Hv)
       |[(pre & e & post & -> & Hpre) | Hall]].
  - left. exists pre, text, cost, value, post.
    repeat split; [apply Forall_malformed_unread|]; assumption.
  - right; left. exists pre, e, post. split; [reflexivity|].
    apply Forall_malformed_unread; assumption.
  - right; right. apply Forall_malformed_unread; assumption.
Qed.

(** A call uses a prefix of the script and charges its costs, in order,
    to its own tier. *)
Lemma perform_used p :
  ∃ used,
    replies p = used ++ replies (perform c agent p).2 ∧
    (perform c agent p).1.2
    = with_metrics (tier_of c) (charge before (costs used)) agent.
Proof.
  rewrite perform_loop.
  destruct (while_true_used (request_of c) (read c) before (replies p) (calls p))
    as (used & Hused & Hm).
  destruct (while_true _ _ _ _ _) as [[o m] p']. cbn [fst snd] in *.
  exists used. split; [exact Hused | rewrite Hm; reflexivity].
Qed.

End Calls.

Lemma metrics_of_with_metrics i m agent : metrics_of i (with_metrics i m agent) = m.
Proof. destruct i; reflexivity. Qed.

Lemma metrics_of_with_metrics_other i j m agent :
  i ≠ j → metrics_of i (with_metrics j m agent) = metrics_of i agent.
Proof. destruct i, j; intros H; try reflexivity; destruct H; reflexivity. Qed.

(** No call changes either counter of either tier. *)
Lemma perform_counters c agent p i :
  ScreeningMetrics.total_disagreements (metrics_of i (perform c agent p).1.2)
  = ScreeningMetrics.total_disagreements (metrics_of i agent) ∧
  ScreeningMetrics.total_processed (metrics_of i (perform c agent p).1.2)
  = ScreeningMetrics.total_processed (metrics_of i agent).
Proof.
  destruct (perform_used c agent p) as (used & _ & ->).
  destruct (decide (i = tier_of c)) as [->|Hne].
  - rewrite metrics_of_with_metrics. apply charge_counters.
  - rewrite metrics_of_with_metrics_other by assumption. split; reflexivity.
Qed.

Lemma perform_all_counters cs : ∀ agent p i,
  ScreeningMetrics.total_disagreements (metrics_of i (perform_all cs agent p).1.2)
  = ScreeningMetrics.total_disagreements (metrics_of i agent) ∧
  ScreeningMetrics.total_processed (metrics_of i (perform_all cs agent p).1.2)
  = ScreeningMetrics.total_processed (metrics_of i agent).
Proof.
  induction cs as [|c cs IH]; intros agent p i; [split; reflexivity|].
  cbn [perform_all].
  pose proof (perform_counters c agent p i) as [H1 H2].
  destruct (perform c agent p) as [[o agent'] p']. cbn [fst snd] in *.
  pose proof (IH agent' p' i) as [H3 H4].
  destruct (perform_all cs agent' p') as [[os agent''] p'']. cbn [fst snd] in *.
  split; congruence.
Qed.

(** ** The counters of the metrics (claims C1 and C2) *)

Section Scenarios.
Local Open Scope string_scope.

(** C1, as stated, fails.  The scenario of the specification on the
    detailed screener: a screen, a review that dissents ([AgreementOf _
    false]) and the improve that follows.  The review returns
    Agreement=false and [total_disagreements] is still 0, not 1. *)
Lemma C1_counterexample :
  let p := {| replies := [Reply "YYY meets criteria" 0.01;
                          Reply "YYY disagree" 0.01;
                          Reply "XXX exclude after reconsideration" 0.01];
              calls := [] |} in
  let after :=
    perform_all [Screen "screen"; ReviewScreening "review"; ImproveScreening "improve"]
      TwoTierScreeningAgent.__init__ p in
  after.1.1 =
    [Returned (DecisionOf "YYY meets criteria" "included");
     Returned (AgreementOf "YYY disagree" false);
     Returned (DecisionOf "XXX exclude after reconsideration" "excluded")] ∧
  ScreeningMetrics.total_disagreements (metrics_of DetailedTier after.1.2) = 0%Z ∧
  ScreeningMetrics.total_disagreements (metrics_of DetailedTier after.1.2)
  ≠ (ScreeningMetrics.total_disagreements
       (metrics_of DetailedTier TwoTierScreeningAgent.__init__) + 1)%Z.
Proof. vm_compute. repeat split. discriminate. Qed.

(** C2, as stated, fails: a classify call returns a decision and
    [total_processed] is still 0, not 1. *)
Lemma C2_counterexample :
  let p := {| replies := [Reply "XXX relevant" 0.01]; calls := [] |} in
  let after :=
    perform (Classify "review title" "review abstract" "title" "abstract" "classify")
      TwoTierScreeningAgent.__init__ p in
  after.1.1 = Returned (DecisionOf "XXX relevant" "potentially relevant") ∧
  ScreeningMetrics.total_processed (metrics_of ClassifierTier after.1.2) = 0%Z ∧
  ScreeningMetrics.total_processed (metrics_of ClassifierTier after.1.2)
  ≠ (ScreeningMetrics.total_processed
       (metrics_of ClassifierTier TwoTierScreeningAgent.__init__) + 1)%Z.
Proof. vm_compute. repeat split. discriminate. Qed.

(** The scenario of the specification in which the reviewer agrees: the
    classify reply has ZZZ, the review reply XXX; no improve is called. *)
Example scenario_reviewer_agrees :
  perform_all
    [Classify "review title" "review abstract" "title" "abstract" "classify";
     ReviewClassification "review"]
    TwoTierScreeningAgent.__init__
    {| replies := [Reply "... ZZZ not relevant ..." 0.01; Reply "XXX concur" 0.02];
       calls := [] |}
  = ([Returned (DecisionOf "... ZZZ not relevant ..." "likely irrelevant");
      Returned (AgreementOf "XXX concur" true)],
     with_metrics ClassifierTier
       (charge ScreeningMetrics.__init__ [0.01; 0.02]%float)
       TwoTierScreeningAgent.__init__,
     {| replies := [];
        calls := [{| fn := gpt_4o_mini; message := "classify"; tier := "classifier" |};
                  {| fn := gpt_o3_mini; message := "review";
                     tier := "classifier_reviewer" |}] |}).
Proof. vm_compute. reflexivity. Qed.

End Scenarios.

(** C1, amended.  No operation of a tier changes [total_disagreements]:
    after every sequence of classify, screen, review and improve calls,
    whatever they return (Agreement=false included), the counter of each
    tier is what it was before.  It changes only through
    [add_disagreement], which adds exactly one and leaves the cost and the
    processed counter alone; [add_cost] and [increment_processed] leave
    it alone. *)
Theorem C1_disagreements_only_by_add_disagreement
  (cs : list tier_call) (agent : TwoTierScreeningAgent.t) (p : Provider)
  (i : tier_id) (m : ScreeningMetrics.t) (cost : float) :
  ScreeningMetrics.total_disagreements (metrics_of i (perform_all cs agent p).1.2)
  = ScreeningMetrics.total_disagreements (metrics_of i agent) ∧
  ScreeningMetrics.total_disagreements (ScreeningMetrics.add_disagreement m)
  = (ScreeningMetrics.total_disagreements m + 1)%Z ∧
  ScreeningMetrics.total_cost (ScreeningMetrics.add_disagreement m)
  = ScreeningMetrics.total_cost m ∧
  ScreeningMetrics.total_processed (ScreeningMetrics.add_disagreement m)
  = ScreeningMetrics.total_processed m ∧
  ScreeningMetrics.total_disagreements (ScreeningMetrics.add_cost m cost)
  = ScreeningMetrics.total_disagreements m ∧
  ScreeningMetrics.total_disagreements (ScreeningMetrics.increment_processed m)
  = ScreeningMetrics.total_disagreements m.
Proof.
  split; [apply perform_all_counters|].
  repeat split.
Qed.

(** C2, amended.  No operation of a tier changes [total_processed]: after
    every sequence of classify, screen, review and improve calls, whatever
    they return, the counter of each tier is what it was before.  It
    changes only through [increment_processed], which adds exactly one and
    leaves the cost and the disagreement counter alone; [add_cost] and
    [add_disagreement] leave it alone. *)
Theorem C2_processed_only_by_increment_processed
  (cs : list tier_call) (agent : TwoTierScreeningAgent.t) (p : Provider)
  (i : tier_id) (m : ScreeningMetrics.t) (cost : float) :
  ScreeningMetrics.total_processed (metrics_of i (perform_all cs agent p).1.2)
  = ScreeningMetrics.total_processed (metrics_of i agent) ∧
  ScreeningMetrics.total_processed (ScreeningMetrics.increment_processed m)
  = (ScreeningMetrics.total_processed m + 1)%Z ∧
  ScreeningMetrics.total_cost (ScreeningMetrics.increment_processed m)
  = ScreeningMetrics.total_cost m ∧
  ScreeningMetrics.total_disagreements (ScreeningMetrics.increment_processed m)
  = ScreeningMetrics.total_disagreements m ∧
  ScreeningMetrics.total_processed (ScreeningMetrics.add_cost m cost)
  = ScreeningMetrics.total_processed m ∧
  ScreeningMetrics.total_processed (ScreeningMetrics.add_disagreement m)
  = ScreeningMetrics.total_processed m.
Proof.
  split; [apply perform_all_counters|].
  repeat split.
Qed.

(** ** Reading the markers (claims C3 and C4) *)

Section Markers.
Local Open Scope string_scope.

Lemma classify_chain_table text :
  CitationClassifier.classify_chain text = first_match classifier_table text.
Proof. reflexivity. Qed.

Lemma improve_classification_chain_table text :
  CitationClassifier.improve_classification_chain text = first_match classifier_table text.
Proof. reflexivity. Qed.

Lemma screen_chain_table text :
  DetailedScreener.screen_chain text = first_match screen_table text.
Proof. reflexivity. Qed.

Lemma improve_screening_chain_table text :
  DetailedScreener.improve_screening_chain text = first_match improve_screening_table text.
Proof. reflexivity. Qed.

(** A call whose first reply it can read returns what it reads there,
    after one provider call. *)
Lemma perform_first_reply c agent text cost rest log a :
  read c text = Some a →
  perform c agent {| replies := Reply text cost :: rest; calls := log |} =
  (Returned a,
   with_metrics (tier_of c)
     (ScreeningMetrics.add_cost (metrics_of (tier_of c) agent) cost) agent,
   {| replies := rest; calls := log ++ [request_of c] |}).
Proof.
  intros Ha. apply (perform_returned c agent [] text cost a rest log); [constructor|exact Ha].
Qed.

(** C3.  The detailed screener's [screen] scans YYY then XXX, with YYY for
    included and XXX for excluded; its [improve_screening] scans XXX then
    YYY, with XXX for excluded and YYY for included.  On a text with at
    least one of the two markers both return at once: with exactly one
    marker they return the same decision, with both markers [screen]
    returns included and [improve_screening] returns excluded. *)
Theorem C3_screen_and_improve_priorities
  (text prompt improver_prompt : string) (agent : TwoTierScreeningAgent.t)
  (cost : float) (rest : list reply) (log : list request)
  (Hmarker : re.search "XXX" text || re.search "YYY" text = true) :
  let p := {| replies := Reply text cost :: rest; calls := log |} in
  let screened := (perform (Screen prompt) agent p).1.1 in
  let improved := (perform (ImproveScreening improver_prompt) agent p).1.1 in
  DetailedScreener.screen_chain text
  = first_match [("YYY", "included"); ("XXX", "excluded")] text ∧
  DetailedScreener.improve_screening_chain text
  = first_match [("XXX", "excluded"); ("YYY", "included")] text ∧
  screened
  = Returned (DecisionOf text (if re.search "YYY" text then "included" else "excluded")) ∧
  improved
  = Returned (DecisionOf text (if re.search "XXX" text then "excluded" else "included")) ∧
  (xorb (re.search "XXX" text) (re.search "YYY" text) = true → screened = improved) ∧
  (re.search "XXX" text && re.search "YYY" text = true →
   screened = Returned (DecisionOf text "included") ∧
   improved = Returned (DecisionOf text "excluded")).
Proof.
  intros p screened improved.
  assert (Hs : screened
    = Returned (DecisionOf text (if re.search "YYY" text then "included" else "excluded"))).
  { unfold screened, p. rewrite (perform_first_reply _ _ _ _ _ _
      (DecisionOf text (if re.search "YYY" text then "included" else "excluded")));
      [reflexivity|].
    rewrite read_screen. unfold DetailedScreener.screen_chain.
    destruct (re.search "YYY" text); [reflexivity|].
    destruct (re.search "XXX" text); [reflexivity|discriminate Hmarker]. }
  assert (Hi : improved
    = Returned (DecisionOf text (if re.search "XXX" text then "excluded" else "included"))).
  { unfold improved, p. rewrite (perform_first_reply _ _ _ _ _ _
      (DecisionOf text (if re.search "XXX" text then "excluded" else "included")));
      [reflexivity|].
    rewrite read_improve_screening. unfold DetailedScreener.improve_screening_chain.
    destruct (re.search "XXX" text); [reflexivity|].
    destruct (re.search "YYY" text); [reflexivity|discriminate Hmarker]. }
  split; [reflexivity|]. split; [reflexivity|].
  split; [exact Hs|]. split; [exact Hi|].
  rewrite Hs, Hi.
  destruct (re.search "XXX" text), (re.search "YYY" text); cbn;
    (split; [intros H; try discriminate H; reflexivity
            |intros H; try discriminate H; split; reflexivity]).
Qed.

(** C3 on a text with both markers, in lower case and inside words. *)
Lemma C3_witness :
  let text := "axxxb or cyyyd" in
  let p := {| replies := [Reply text 0.01]; calls := [] |} in
  (perform (Screen "s") TwoTierScreeningAgent.__init__ p).1.1
  = Returned (DecisionOf text "included") ∧
  (perform (ImproveScreening "i") TwoTierScreeningAgent.__init__ p).1.1
  = Returned (DecisionOf text "excluded").
Proof.
  intros text p.
  pose proof (C3_screen_and_improve_priorities text "s" "i"
                TwoTierScreeningAgent.__init__ 0.01 [] [] eq_refl) as H.
  cbv zeta in H. destruct H as (_ & _ & _ & _ & _ & H).
  apply H. reflexivity.
Defined.

End Markers.

Section ClassifierMarkers.
Local Open Scope string_scope.

(** C4.  On a text with at least one of XXX, YYY, ZZZ the classifier's
    [classify] and [improve_classification] return at once the decision
    of the first marker found, scanning for XXX (potentially relevant),
    then YYY (uncertain), then ZZZ (likely irrelevant); a marker is found
    in any case and with any text around it, so a text with one marker
    only gives that marker's decision. *)
Theorem C4_classifier_first_marker_wins
  (text sr_title sr_abstract candidate_title candidate_abstract prompt
     improver_prompt : string)
  (agent : TwoTierScreeningAgent.t) (cost : float) (rest : list reply)
  (log : list request)
  (Hmarker :
     re.search "XXX" text || re.search "YYY" text || re.search "ZZZ" text = true) :
  let p := {| replies := Reply text cost :: rest; calls := log |} in
  let d :=
    if re.search "XXX" text then "potentially relevant"
    else if re.search "YYY" text then "uncertain"
    else "likely irrelevant" in
  first_match
    [("XXX", "potentially relevant"); ("YYY", "uncertain"); ("ZZZ", "likely irrelevant")]
    text = Some d ∧
  CitationClassifier.classify_chain text = Some d ∧
  CitationClassifier.improve_classification_chain text = Some d ∧
  (perform (Classify sr_title sr_abstract candidate_title candidate_abstract prompt)
     agent p).1.1 = Returned (DecisionOf text d) ∧
  (perform (ImproveClassification improver_prompt) agent p).1.1
  = Returned (DecisionOf text d) ∧
  (∀ pre mid post, text = pre +:+ mid +:+ post → fold_case mid = "xxx" →
     d = "potentially relevant") ∧
  (∀ pre mid post, text = pre +:+ mid +:+ post → fold_case mid = "yyy" →
     re.search "XXX" text = false → d = "uncertain") ∧
  (∀ pre mid post, text = pre +:+ mid +:+ post → fold_case mid = "zzz" →
     re.search "XXX" text = false → re.search "YYY" text = false →
     d = "likely irrelevant").
Proof.
  intros p d.
  assert (Hd : first_match classifier_table text = Some d).
  { unfold d, classifier_table, first_match.
    destruct (re.search "XXX" text); [reflexivity|].
    destruct (re.search "YYY" text); [reflexivity|].
    destruct (re.search "ZZZ" text); [reflexivity|discriminate Hmarker]. }
  split; [exact Hd|].
  split; [rewrite classify_chain_table; exact Hd|].
  split; [rewrite improve_classification_chain_table; exact Hd|].
  split.
  { unfold p. rewrite (perform_first_reply _ _ _ _ _ _ (DecisionOf text d)); [reflexivity|].
    rewrite read_classify, classify_chain_table, Hd. reflexivity. }
  split.
  { unfold p. rewrite (perform_first_reply _ _ _ _ _ _ (DecisionOf text d)); [reflexivity|].
    rewrite read_improve_classification, improve_classification_chain_table, Hd.
    reflexivity. }
  split; [|split].
  - intros pre mid post -> Hmid. unfold d.
    rewrite (search_surrounded "XXX" pre mid post Hmid). reflexivity.
  - intros pre mid post -> Hmid Hx. unfold d.
    rewrite Hx, (search_surrounded "YYY" pre mid post Hmid). reflexivity.
  - intros pre mid post -> Hmid Hx Hy. unfold d. rewrite Hx, Hy. reflexivity.
Qed.

(** C4 on a text whose only marker is YYY, in mixed case inside a word. *)
Lemma C4_witness :
  let text := "verdict:yYy." in
  let p := {| replies := [Reply text 0.01]; calls := [] |} in
  (perform (Classify "t" "a" "ct" "ca" "classify") TwoTierScreeningAgent.__init__ p).1.1
  = Returned (DecisionOf text "uncertain") ∧
  (perform (ImproveClassification "improve") TwoTierScreeningAgent.__init__ p).1.1
  = Returned (DecisionOf text "uncertain").
Proof.
  intros text p.
  pose proof (C4_classifier_first_marker_wins text "t" "a" "ct" "ca" "classify" "improve"
                TwoTierScreeningAgent.__init__ 0.01 [] [] eq_refl) as H.
  cbv zeta in H. destruct H as (_ & _ & _ & H1 & H2 & _ & Hy & _).
  rewrite (Hy "verdict:" "yYy" "." eq_refl eq_refl eq_refl) in H1, H2.
  split; [exact H1 | exact H2].
Defined.

End ClassifierMarkers.

(** ** Malformed output (claim C5) *)

Lemma with_metrics_twice i m m' agent :
  with_metrics i m' (with_metrics i m agent) = with_metrics i m' agent.
Proof. destruct i; reflexivity. Qed.

Lemma with_metrics_same i agent : with_metrics i (metrics_of i agent) agent = agent.
Proof. destruct i, agent as [[mc] [md]]; reflexivity. Qed.

(** A malformed first reply is paid for, and the call goes on as if it
    had started after it: same request, next reply. *)
Lemma perform_malformed_first c agent text cost rest log :
  malformed c (Reply text cost) →
  perform c agent {| replies := Reply text cost :: rest; calls := log |} =
  perform c
    (with_metrics (tier_of c)
       (ScreeningMetrics.add_cost (metrics_of (tier_of c) agent) cost) agent)
    {| replies := rest; calls := log ++ [request_of c] |}.
Proof.
  intros Hbad. apply malformed_unread in Hbad. cbn [unread] in Hbad.
  rewrite !perform_loop. cbn [replies calls while_true]. rewrite Hbad.
  rewrite metrics_of_with_metrics.
  destruct (while_true _ _ _ rest _) as [[o m] p'].
  rewrite with_metrics_twice. reflexivity.
Qed.

(** What a call reads is the answer of one of its markers, found in the
    text. *)
Lemma read_some_marker c text a :
  read c text = Some a → ∃ marker, marker ∈ markers_of c ∧ re.search marker text = true.
Proof.
  unfold read, markers_of.
  generalize (table_of c). intros table.
  induction table as [|[marker f] table IH]; cbn [first_match map fst]; [discriminate|].
  destruct (re.search marker text) eqn:Hs.
  - intros _. exists marker. split; [left|exact Hs].
  - intros H. destruct (IH H) as (marker' & Hin & Hs').
    exists marker'. split; [right; exact Hin|exact Hs'].
Qed.

(** C5.  A reply in which no marker of the operation is found is never
    turned into a decision or an agreement, and no default stands in for
    it: the operation asks the provider again with the same request.  So
    a malformed reply followed by a well-formed one is two provider calls
    and the answer of the second; as long as every reply is malformed the
    operation has not returned; and when it returns, it returns what it
    read in a reply that has one of its markers, every reply before being
    malformed, and when it raises, the provider raised. *)
Theorem C5_malformed_output_is_asked_again
  (c : tier_call) (agent : TwoTierScreeningAgent.t) (text : string) (cost : float)
  (Hbad : malformed c (Reply text cost)) :
  (∀ rest log,
     perform c agent {| replies := Reply text cost :: rest; calls := log |} =
     perform c
       (with_metrics (tier_of c)
          (ScreeningMetrics.add_cost (metrics_of (tier_of c) agent) cost) agent)
       {| replies := rest; calls := log ++ [request_of c] |}) ∧
  (∀ text' cost' a rest,
     read c text' = Some a →
     let after :=
       perform c agent {| replies := Reply text cost :: Reply text' cost' :: rest;
                          calls := [] |} in
     after.1.1 = Returned a ∧
     calls after.2 = [request_of c; request_of c] ∧
     replies after.2 = rest) ∧
  (∀ rest log,
     Forall (malformed c) rest →
     let after := perform c agent {| replies := Reply text cost :: rest; calls := log |} in
     after.1.1 = Blocked ∧
     calls after.2 = log ++ replicate (S (S (length rest))) (request_of c)) ∧
  (∀ p a,
     (perform c agent p).1.1 = Returned a →
     ∃ pre text' cost' post marker,
       replies p = pre ++ Reply text' cost' :: post ∧
       Forall (malformed c) pre ∧
       read c text' = Some a ∧
       marker ∈ markers_of c ∧ re.search marker text' = true ∧
       replies (perform c agent p).2 = post ∧
       calls (perform c agent p).2
       = calls p ++ replicate (S (length pre)) (request_of c)) ∧
  (∀ p e,
     (perform c agent p).1.1 = Raised e →
     ∃ pre post,
       replies p = pre ++ Raises e :: post ∧ Forall (malformed c) pre).
Proof.
  split; [intros rest log; apply perform_malformed_first, Hbad|].
  split.
  { intros text' cost' a rest Ha after. unfold after.
    assert (Hpre : Forall (malformed c) [Reply text cost])
      by (constructor; [exact Hbad|constructor]).
    pose proof (perform_returned c agent [Reply text cost] text' cost' a rest []
                  Hpre Ha) as H.
    cbn [app] in H. rewrite H. repeat split. }
  split.
  { intros rest log Hrest after. unfold after.
    rewrite (perform_blocked c agent (Reply text cost :: rest) log)
      by (constructor; assumption).
    split; reflexivity. }
  split.
  - intros [rs log] a Hret.
    destruct (call_shape c rs)
      as [(pre & text' & cost' & a' & post & -> & Hpre & Ha)
         |[(pre & e & post & -> & Hpre) | Hall]].
    + rewrite (perform_returned c agent pre text' cost' a' post log Hpre Ha) in Hret |- *.
      cbn [fst snd] in Hret. injection Hret as ->.
      destruct (read_some_marker c text' a Ha) as (marker & Hin & Hs).
      exists pre, text', cost', post, marker. repeat split; assumption.
    + rewrite (perform_raised c agent pre e post log Hpre) in Hret. discriminate Hret.
    + rewrite (perform_blocked c agent rs log Hall) in Hret. discriminate Hret.
  - intros [rs log] e Hret.
    destruct (call_shape c rs)
      as [(pre & text' & cost' & a' & post & -> & Hpre & Ha)
         |[(pre & e' & post & -> & Hpre) | Hall]].
    + rewrite (perform_returned c agent pre text' cost' a' post log Hpre Ha) in Hret.
      discriminate Hret.
    + rewrite (perform_raised c agent pre e' post log Hpre) in Hret.
      cbn [fst snd] in Hret. injection Hret as ->.
      exists pre, post. split; [reflexivity|exact Hpre].
    + rewrite (perform_blocked c agent rs log Hall) in Hret. discriminate Hret.
Qed.

Section MalformedScenario.
Local Open Scope string_scope.

(** C5 on the scenario of the specification: the reply "unclear", then
    "XXX relevant": two provider calls with the classify prompt, and
    potentially relevant. *)
Lemma C5_witness :
  let c := Classify "review title" "review abstract" "title" "abstract" "classify" in
  let after :=
    perform c TwoTierScreeningAgent.__init__
      {| replies := [Reply "unclear" 0.01; Reply "XXX relevant" 0.02]; calls := [] |} in
  after.1.1 = Returned (DecisionOf "XXX relevant" "potentially relevant") ∧
  calls after.2 = [request_of c; request_of c] ∧
  replies after.2 = [].
Proof.
  intros c.
  assert (Hbad : malformed c (Reply "unclear" 0.01)) by (repeat constructor).
  destruct (C5_malformed_output_is_asked_again c TwoTierScreeningAgent.__init__
              "unclear" 0.01%float Hbad) as (_ & H & _).
  exact (H "XXX relevant" 0.02%float (DecisionOf "XXX relevant" "potentially relevant") []
           eq_refl).
Defined.

End MalformedScenario.

(** ** Provider failure (claims C7 and C9) *)

Section Transport.
Variable config : AppConfig.
Variable args : create_args.

Local Abbreviation delay := (retry_delay (llm config)).

Local Lemma replicate_snoc {A} (x : A) n : replicate n x ++ [x] = replicate (S n) x.
Proof. induction n as [|n IH]; [reflexivity|]. simpl. f_equal. exact IH. Qed.


(** When every attempt of [range(max_retries)] fails, the last exception
    is raised, after [max_retries] requests and a sleep between two
    requests. *)
Lemma retry_loop_failure attempt todo e rest log naps :
  LLMClient.retry_loop config args (attempt :: todo) (Failure e :: rest) log naps =
  if (attempt <? max_retries (llm config) - 1)%Z then
    if (delay <? 0)%Z then
      (Raised ValueError,
       {| answers := rest; created := log ++ [args]; slept := naps |})
    else LLMClient.retry_loop config args todo rest (log ++ [args]) (naps ++ [delay])
  else (Raised e, {| answers := rest; created := log ++ [args]; slept := naps |}).
Proof. reflexivity. Qed.


End Transport.



Section FailureScenario.
Local Open Scope string_scope.


End FailureScenario.

(** C9.  When the provider raises, the agent is exactly as it was when the
    failing call was made: the costs of the malformed replies before it
    are in [total_cost], nothing is added for the failed call, the two
    counters and the other tier are untouched.  A call whose first
    provider call fails leaves the agent as it found it. *)
Theorem C9_failed_call_adds_nothing
  (c : tier_call) (agent : TwoTierScreeningAgent.t) (pre : list reply) (e : exn)
  (post : list reply) (log : list request)
  (Hpre : Forall (malformed c) pre) :
  let failed := perform c agent {| replies := pre ++ Raises e :: post; calls := log |} in
  let asking := perform c agent {| replies := pre; calls := log |} in
  failed.1.1 = Raised e ∧
  asking.1.1 = Blocked ∧
  failed.1.2 = asking.1.2 ∧
  metrics_of (tier_of c) failed.1.2 = charge (metrics_of (tier_of c) agent) (costs pre) ∧
  ScreeningMetrics.total_cost (metrics_of (tier_of c) failed.1.2)
  = add_all (ScreeningMetrics.total_cost (metrics_of (tier_of c) agent)) (costs pre) ∧
  (∀ i,
     ScreeningMetrics.total_disagreements (metrics_of i failed.1.2)
     = ScreeningMetrics.total_disagreements (metrics_of i agent) ∧
     ScreeningMetrics.total_processed (metrics_of i failed.1.2)
     = ScreeningMetrics.total_processed (metrics_of i agent)) ∧
  (∀ i, i ≠ tier_of c → metrics_of i failed.1.2 = metrics_of i agent) ∧
  (perform c agent {| replies := Raises e :: post; calls := log |}).1.2 = agent.
Proof.
  intros failed asking. unfold failed, asking.
  rewrite (perform_raised c agent pre e post log Hpre).
  rewrite (perform_blocked c agent pre log Hpre). cbn [fst snd].
  split; [reflexivity|]. split; [reflexivity|]. split; [reflexivity|].
  split; [apply metrics_of_with_metrics|].
  split; [rewrite metrics_of_with_metrics; apply charge_total_cost|].
  split; [|split].
  - intros i. destruct (decide (i = tier_of c)) as [->|Hne].
    + rewrite metrics_of_with_metrics. apply charge_counters.
    + rewrite metrics_of_with_metrics_other by assumption. split; reflexivity.
  - intros i Hne. apply metrics_of_with_metrics_other, Hne.
  - pose proof (perform_raised c agent [] e post log ltac:(constructor)) as H.
    cbn [app] in H. rewrite H.
    cbn [fst snd costs charge fold_left]. apply with_metrics_same.
Qed.

Section AtomicityScenario.
Local Open Scope string_scope.

(** C9 on a screen whose first provider call fails. *)
Lemma C9_witness :
  (perform (Screen "screen") TwoTierScreeningAgent.__init__
     {| replies := [Raises (ProviderError "timeout")]; calls := [] |}).1.2
  = TwoTierScreeningAgent.__init__.
Proof.
  pose proof (C9_failed_call_adds_nothing (Screen "screen") TwoTierScreeningAgent.__init__
                [] (ProviderError "timeout") [] [] ltac:(constructor)) as H.
  cbv zeta in H. destruct H as (_ & _ & _ & _ & _ & _ & _ & H). exact H.
Defined.

End AtomicityScenario.

(** ** A model without a price (claim C8) *)

(** C8.  When the pricing table has no entry for the model, the cost of a
    call is computed as the float 0 and nothing is raised, whatever the
    token counts; a call that the API answers then returns the text of the
    answer with that cost, after one request and no sleep. *)
Theorem C8_unpriced_model_costs_nothing
  (config : AppConfig) (response : ChatCompletion) (model_name : string)
  (msgs : messages) (system_message : option string)
  (rest : list attempt) (log : list create_args) (naps : list Z)
  (Hunpriced : pricing (llm config) !! model_name = None)
  (Hretries : (0 < max_retries (llm config))%Z) :
  LLMClient._calculate_cost config response model_name = inr (Float 0) ∧
  LLMClient._make_api_call config model_name msgs system_message
    {| answers := Success response :: rest; created := log; slept := naps |} =
  (Returned (Some (content response, Float 0)),
   {| answers := rest;
      created := log ++ [{| arg_model := model_name;
                            arg_messages := LLMClient.format_messages msgs system_message;
                            arg_timeout := timeout (llm config) |}];
      slept := naps |}).
Proof.
  assert (Hcost : LLMClient._calculate_cost config response model_name = inr (Float 0)).
  { unfold LLMClient._calculate_cost. rewrite Hunpriced. cbn [default].
    destruct (decide (∅ = ∅)) as [_|Hne]; [reflexivity|destruct Hne; reflexivity]. }
  split; [exact Hcost|].
  unfold LLMClient._make_api_call, LLMClient.range. cbn [answers created slept].
  destruct (Z.to_nat (max_retries (llm config))) as [|n] eqn:Hn; [lia|].
  cbn [seq map LLMClient.retry_loop arg_model]. rewrite Hcost. reflexivity.
Qed.

Section UnpricedScenario.
Local Open Scope string_scope.

(** C8 on the default configuration and a model it has no price for. *)
Lemma C8_witness :
  let response :=
    {| content := "XXX relevant";
       usage := {| prompt_tokens := 1200; completion_tokens := 80 |} |} in
  LLMClient._calculate_cost default_config response "gpt-5" = inr (Float 0) ∧
  (LLMClient._make_api_call default_config "gpt-5" (Text "classify") None
     {| answers := [Success response]; created := []; slept := [] |}).1
  = Returned (Some ("XXX relevant", Float 0)).
Proof.
  intros response.
  destruct (C8_unpriced_model_costs_nothing default_config response "gpt-5"
              (Text "classify") None [] [] [] eq_refl eq_refl) as [H1 H2].
  split; [exact H1|]. rewrite H2. reflexivity.
Defined.

End UnpricedScenario.

(** ** The running cost (claim C6) *)

Lemma SFleb_trans x y z : SFleb x y = true → SFleb y z = true → SFleb x z = true.
Proof.
  unfold SFleb, SFcompare.
  destruct x as [sx|sx| |sx mx ex], y as [sy|sy| |sy my ey], z as [sz|sz| |sz mz ez];
    try discriminate; try reflexivity;
    try (destruct sx, sy, sz; (discriminate || reflexivity)).
  change (@PosDef.Pos.compare_cont) with (@Pos.compare_cont).
  change (Pos.compare_cont Eq) with Pos.compare.
  destruct sx, sy, sz; try discriminate; try reflexivity;
    destruct (Z.compare_spec ex ey), (Z.compare_spec ey ez), (Z.compare_spec ex ez);
    try discriminate; try reflexivity; try lia;
    destruct (Pos.compare_spec mx my), (Pos.compare_spec my mz), (Pos.compare_spec mx mz);
    cbn; try discriminate; try reflexivity; lia.
Qed.

Lemma leb_trans (x y z : float) :
  (x <=? y)%float = true → (y <=? z)%float = true → (x <=? z)%float = true.
Proof. rewrite !leb_spec. apply SFleb_trans. Qed.

Lemma leb_refl_nonneg (x : float) : nonneg x → (x <=? x)%float = true.
Proof.
  unfold nonneg. rewrite !leb_spec. intros H. apply SFleb_refl.
  intros Hnan. rewrite Hnan in H. discriminate H.
Qed.

(** Adding non-negative costs, one after the other, never gives less. *)
Lemma add_all_ge cs : ∀ x,
  nonneg x → Forall nonneg cs →
  (x <=? add_all x cs)%float = true ∧ nonneg (add_all x cs).
Proof.
  induction cs as [|c cs IH]; intros x Hx Hcs.
  - split; [apply leb_refl_nonneg, Hx | exact Hx].
  - apply Forall_cons in Hcs as [Hc Hcs].
    destruct (add_nonneg_ge x c Hx Hc) as [H1 H2].
    destruct (IH (x + c)%float H2 Hcs) as [H3 H4].
    split; [exact (leb_trans _ _ _ H1 H3) | exact H4].
Qed.

Lemma Forall_nonneg_costs_app rs rs' :
  Forall nonneg (costs (rs ++ rs')) → Forall nonneg (costs rs) ∧ Forall nonneg (costs rs').
Proof. rewrite costs_app. apply Forall_app. Qed.

(** One call: the tier's total grows by the costs of the replies the call
    used; nothing else moves. *)
Lemma perform_total_cost c agent p :
  (∀ j, nonneg (ScreeningMetrics.total_cost (metrics_of j agent))) →
  Forall nonneg (costs (replies p)) →
  (∀ j,
     (ScreeningMetrics.total_cost (metrics_of j agent)
      <=? ScreeningMetrics.total_cost (metrics_of j (perform c agent p).1.2))%float = true ∧
     nonneg (ScreeningMetrics.total_cost (metrics_of j (perform c agent p).1.2))) ∧
  Forall nonneg (costs (replies (perform c agent p).2)).
Proof.
  intros Hstart Hcosts.
  destruct (perform_used c agent p) as (used & Hused & ->).
  rewrite Hused in Hcosts. apply Forall_nonneg_costs_app in Hcosts as [Hu Hrest].
  split; [|exact Hrest].
  intros j. destruct (decide (j = tier_of c)) as [->|Hne].
  - rewrite metrics_of_with_metrics, charge_total_cost. apply add_all_ge; auto.
  - rewrite metrics_of_with_metrics_other by assumption.
    split; [apply leb_refl_nonneg|]; apply Hstart.
Qed.

Lemma perform_all_total_cost cs : ∀ agent p,
  (∀ j, nonneg (ScreeningMetrics.total_cost (metrics_of j agent))) →
  Forall nonneg (costs (replies p)) →
  ∀ j,
    (ScreeningMetrics.total_cost (metrics_of j agent)
     <=? ScreeningMetrics.total_cost (metrics_of j (perform_all cs agent p).1.2))%float = true ∧
    nonneg (ScreeningMetrics.total_cost (metrics_of j (perform_all cs agent p).1.2)).
Proof.
  induction cs as [|c cs IH]; intros agent p Hstart Hcosts j.
  - split; [apply leb_refl_nonneg|]; apply Hstart.
  - cbn [perform_all].
    destruct (perform_total_cost c agent p Hstart Hcosts) as [H1 H2].
    destruct (perform c agent p) as [[o agent'] p']. cbn [fst snd] in *.
    pose proof (IH agent' p' (λ j, proj2 (H1 j)) H2 j) as [H3 H4].
    destruct (perform_all cs agent' p') as [[os agent''] p'']. cbn [fst snd] in *.
    split; [exact (leb_trans _ _ _ (proj1 (H1 j)) H3) | exact H4].
Qed.

(** A sequence of calls of one tier: that tier's metrics are charged the
    costs of the replies used, in order; the other tier is as before. *)
Lemma perform_all_used i cs : ∀ agent p,
  Forall (λ c, tier_of c = i) cs →
  ∃ used,
    replies p = used ++ replies (perform_all cs agent p).2 ∧
    (perform_all cs agent p).1.2
    = with_metrics i (charge (metrics_of i agent) (costs used)) agent.
Proof.
  induction cs as [|c cs IH]; intros agent p Htier.
  - exists []. split; [reflexivity|]. cbn. symmetry. apply with_metrics_same.
  - apply Forall_cons in Htier as [Hc Htier]. cbn [perform_all].
    destruct (perform_used c agent p) as (used & Hused & Hagent).
    destruct (perform c agent p) as [[o agent'] p']. cbn [fst snd] in *.
    destruct (IH agent' p' Htier) as (used' & Hused' & Hagent').
    destruct (perform_all cs agent' p') as [[os agent''] p'']. cbn [fst snd] in *.
    exists (used ++ used'). split.
    + rewrite Hused, Hused', app_assoc. reflexivity.
    + rewrite Hagent', Hagent, Hc, metrics_of_with_metrics, with_metrics_twice.
      rewrite costs_app, charge_app. reflexivity.
Qed.

(** The total of a reachable metrics object is non-negative: the start
    that the lemmas above and claim C6 ask for. *)
Lemma reachable_total_cost_nonneg m :
  ScreeningMetrics.reachable m → nonneg (ScreeningMetrics.total_cost m).
Proof.
  induction 1 as [|m cost Hm IH Hcost|m Hm IH|m Hm IH]; try exact IH.
  - reflexivity.
  - exact (proj2 (add_nonneg_ge _ _ IH Hcost)).
Qed.

Section CostScenario.
Local Open Scope string_scope.

(** C6, as stated, fails.  The same three successful provider calls of one
    classify call (two malformed replies and a well-formed one), with the
    costs 0.1, 0.2 and 0.3 in two orders: the totals differ. *)
Lemma C6_counterexample :
  let total rs :=
    ScreeningMetrics.total_cost
      (metrics_of ClassifierTier
         (perform (Classify "review title" "review abstract" "title" "abstract" "classify")
            TwoTierScreeningAgent.__init__ {| replies := rs; calls := [] |}).1.2) in
  let one := [Reply "unclear" 0.1; Reply "unclear" 0.2; Reply "XXX relevant" 0.3] in
  let other := [Reply "unclear" 0.3; Reply "unclear" 0.2; Reply "XXX relevant" 0.1] in
  costs other = rev (costs one) ∧
  Forall nonneg (costs one) ∧
  total one = 0.6000000000000001%float ∧
  total other = 0.6%float ∧
  total one ≠ total other.
Proof.
  cbv zeta. split; [reflexivity|]. split; [repeat constructor|].
  split; [vm_compute; reflexivity|]. split; [vm_compute; reflexivity|].
  vm_compute. intros H. discriminate H.
Qed.

End CostScenario.

(** C6, amended.  Against a provider whose costs are non-negative, and
    from totals that are non-negative (as those of a fresh agent are):
    every call adds to the [total_cost] of its tier the costs of the
    provider replies it used, malformed ones included, one float addition
    after the other in the order of the calls, and leaves the other tier
    alone; so after a sequence of calls of one tier the total is that
    running float sum over all the replies used.  No [total_cost] ever
    decreases, across one call or a sequence of calls of both tiers.  (The
    running sum rounds at each addition: it is not the exact sum, and not
    the same for every order.) *)
Theorem C6_total_cost_is_the_running_sum
  (i : tier_id) (cs : list tier_call) (agent : TwoTierScreeningAgent.t) (p : Provider)
  (Hstart : ∀ j, nonneg (ScreeningMetrics.total_cost (metrics_of j agent)))
  (Hcosts : Forall nonneg (costs (replies p))) :
  let after := perform_all cs agent p in
  (∀ j,
     (ScreeningMetrics.total_cost (metrics_of j agent)
      <=? ScreeningMetrics.total_cost (metrics_of j after.1.2))%float = true ∧
     nonneg (ScreeningMetrics.total_cost (metrics_of j after.1.2))) ∧
  (Forall (λ c, tier_of c = i) cs →
   ∃ used,
     replies p = used ++ replies after.2 ∧
     ScreeningMetrics.total_cost (metrics_of i after.1.2)
     = add_all (ScreeningMetrics.total_cost (metrics_of i agent)) (costs used) ∧
     ∀ j, j ≠ i → metrics_of j after.1.2 = metrics_of j agent) ∧
  (∀ c,
   ∃ used,
     replies p = used ++ replies (perform c agent p).2 ∧
     ScreeningMetrics.total_cost (metrics_of (tier_of c) (perform c agent p).1.2)
     = add_all (ScreeningMetrics.total_cost (metrics_of (tier_of c) agent)) (costs used) ∧
     ∀ j, j ≠ tier_of c → metrics_of j (perform c agent p).1.2 = metrics_of j agent).
Proof.
  intros after. split; [|split].
  - apply perform_all_total_cost; assumption.
  - intros Htier. unfold after.
    destruct (perform_all_used i cs agent p Htier) as (used & Hused & ->).
    exists used. split; [exact Hused|]. split.
    + rewrite metrics_of_with_metrics. apply charge_total_cost.
    + intros j Hne. apply metrics_of_with_metrics_other, Hne.
  - intros c. destruct (perform_used c agent p) as (used & Hused & ->).
    exists used. split; [exact Hused|]. split.
    + rewrite metrics_of_with_metrics. apply charge_total_cost.
    + intros j Hne. apply metrics_of_with_metrics_other, Hne.
Qed.

Section CostWitness.
Local Open Scope string_scope.

(** C6 on a classify with one retry followed by a review, from a fresh
    agent: the classifier's total is 0.0 + 0.1 + 0.2 + 0.3 in that order. *)
Lemma C6_witness :
  let cs := [Classify "review title" "review abstract" "title" "abstract" "classify";
             ReviewClassification "review"] in
  let p := {| replies := [Reply "unclear" 0.1; Reply "XXX relevant" 0.2;
                          Reply "XXX concur" 0.3];
              calls := [] |} in
  let after := perform_all cs TwoTierScreeningAgent.__init__ p in
  ScreeningMetrics.total_cost (metrics_of ClassifierTier after.1.2)
  = (0 + 0.1 + 0.2 + 0.3)%float ∧
  (0 <=? ScreeningMetrics.total_cost (metrics_of ClassifierTier after.1.2))%float = true ∧
  metrics_of DetailedTier after.1.2 = ScreeningMetrics.__init__.
Proof.
  intros cs p after.
  assert (Hstart : ∀ j, nonneg (ScreeningMetrics.total_cost
                                   (metrics_of j TwoTierScreeningAgent.__init__)))
    by (intros []; reflexivity).
  assert (Hcosts : Forall nonneg (costs (replies p))) by (repeat constructor).
  destruct (C6_total_cost_is_the_running_sum ClassifierTier cs
              TwoTierScreeningAgent.__init__ p Hstart Hcosts) as (Hmono & Hsum & _).
  destruct (Hsum ltac:(repeat constructor)) as (used & Hused & Htotal & Hother).
  assert (Hu : used = replies p).
  { change (replies (perform_all cs TwoTierScreeningAgent.__init__ p).2) with (@nil reply)
      in Hused.
    rewrite app_nil_r in Hused. symmetry. exact Hused. }
  rewrite Hu in Htotal. split; [exact Htotal|].
  split; [exact (proj1 (Hmono ClassifierTier))|].
  exact (Hother DetailedTier ltac:(discriminate)).
Defined.

End CostWitness.

(** ** The summary (claim C10) *)




Lemma float_of_int_one : float_of_int 1 = inr 1%float.
Proof. vm_compute. reflexivity. Qed.

Section Conversion.
Local Open Scope Z_scope.

Local Abbreviation fexp := (SpecFloat.fexp prec emax).
Local Abbreviation digits p := (Zpos (digits2_pos p)).

Lemma digits_unique p d : 2 ^ (d - 1) <= Zpos p < 2 ^ d → digits p = d.
Proof.
  intros [H1 H2]. pose proof (digits_bounds p) as [H3 H4].
  assert (Hd : 0 < d).
  { destruct (Z.lt_ge_cases 0 d) as [|Hle]; [assumption|exfalso].
    destruct (Z.eq_dec d 0) as [->|Hne]; [cbn in H2; lia|].
    rewrite Z.pow_neg_r in H2 by lia. lia. }
  destruct (Z.lt_trichotomy (digits p) d) as [Hlt|[Heq|Hgt]]; [exfalso|exact Heq|exfalso].
  - assert (2 ^ digits p <= 2 ^ (d - 1)) by (apply Z.pow_le_mono_r; lia). lia.
  - assert (2 ^ d <= 2 ^ (digits p - 1)) by (apply Z.pow_le_mono_r; lia). lia.
Qed.

(** A float of the specification that is finite converts to a primitive
    float that is not an infinity. *)
Lemma is_infinity_finite s m e :
  bounded prec emax m e = true → is_infinity (SF2Prim (S754_finite s m e)) = false.
Proof.
  intros Hb. unfold is_infinity.
  rewrite FloatAxioms.eqb_spec, abs_spec, Prim2SF_SF2Prim by exact Hb. reflexivity.
Qed.

(** The rounding bit after a shift: the last bit shifted out. *)
Lemma shr_1_r mrs :
  0 <= shr_m mrs → shr_r (shr_1 mrs) = Z.testbit (shr_m mrs) 0.
Proof.
  destruct mrs as [m r s]. cbn [shr_m]. intros Hm.
  destruct m as [|[q|q|]|q]; try lia; reflexivity.
Qed.

Lemma iter_shr_1_r n : ∀ mrs,
  0 <= shr_m mrs →
  shr_r (SpecFloat.iter_pos shr_1 n mrs) = Z.testbit (shr_m mrs) (Zpos n - 1).
Proof.
  induction n as [n IH|n IH|]; intros mrs Hm; cbn [SpecFloat.iter_pos].
  - assert (Hp := pow2_pos (Zpos n) ltac:(lia)).
    assert (H1 : 0 <= shr_m (shr_1 mrs))
      by (rewrite shr_1_m by assumption; apply Z.div_pos; lia).
    assert (H2 : 0 <= shr_m (SpecFloat.iter_pos shr_1 n (shr_1 mrs)))
      by (rewrite iter_shr_1_m by assumption; apply Z.div_pos; lia).
    rewrite IH, iter_shr_1_m, shr_1_m by assumption.
    rewrite Z.div_div by lia.
    replace (2 * 2 ^ Zpos n) with (2 ^ (Zpos n + 1)) by (rewrite Z.pow_add_r; lia).
    rewrite Z.div_pow2_bits by lia. f_equal. lia.
  - assert (Hp := pow2_pos (Zpos n) ltac:(lia)).
    assert (H2 : 0 <= shr_m (SpecFloat.iter_pos shr_1 n mrs))
      by (rewrite iter_shr_1_m by assumption; apply Z.div_pos; lia).
    rewrite IH, iter_shr_1_m by assumption.
    rewrite Z.div_pow2_bits by lia. f_equal. lia.
  - apply shr_1_r, Hm.
Qed.

(** When the bit below the kept ones is 0, rounding to nearest keeps the
    truncated mantissa. *)
Lemma round_nearest_even_down mrs :
  shr_r mrs = false →
  round_nearest_even (shr_m mrs) (loc_of_shr_record mrs) = shr_m mrs.
Proof. destruct mrs as [m [] []]; cbn; intros H; try discriminate H; reflexivity. Qed.

Lemma shr_fexp_round_bit (p : positive) (e : Z) :
  e < fexp (digits p + e) →
  shr_r (fst (shr_fexp prec emax (Zpos p) e loc_Exact))
  = Z.testbit (Zpos p) (fexp (digits p + e) - e - 1).
Proof.
  intros Hlt. unfold shr_fexp. cbn [Zdigits2 shr_record_of_loc].
  destruct (fexp (digits p + e) - e) as [|n|n] eqn:Hn; try lia.
  cbn [shr fst]. rewrite iter_shr_1_r by (cbn; lia). reflexivity.
Qed.

Lemma shl_align_down (m : positive) (e e' : Z) :
  e' <= e → ∃ mz, shl_align m e e' = (mz, e') ∧ Zpos mz = Zpos m * 2 ^ (e - e').
Proof.
  intros Hle. pose proof (shl_align_le m e e' Hle) as Hm.
  unfold shl_align in *. destruct (e' - e) as [|d|d] eqn:Hd; try lia.
  - exists m. assert (e' = e) as -> by lia. split; [reflexivity|exact Hm].
  - eexists. split; [reflexivity|exact Hm].
Qed.

Lemma bounded_intro m e :
  fexp (digits m + e) = e → e <= 971 → bounded prec emax m e = true.
Proof.
  intros Hc He. unfold bounded, canonical_mantissa.
  apply andb_true_iff. split; [apply Z.eqb_eq, Hc | apply Z.leb_le, He].
Qed.

(** Every positive integer below 2^1024 - 2^970 rounds to a finite
    binary64 float. *)
Lemma int_rounds_finite (p : positive) :
  Zpos p < 2 ^ 1024 - 2 ^ 970 →
  ∃ m e, binary_normalize prec emax (Zpos p) 0 false = S754_finite false m e ∧
         bounded prec emax m e = true.
Proof.
  intros Hp. unfold binary_normalize, binary_round.
  pose proof (digits_bounds p) as [Hlo Hhi].
  set (D := digits p) in *.
  assert (HD1 : 1 <= D) by (unfold D; lia).
  assert (HD : D <= 1024).
  { destruct (Z.le_gt_cases D 1024) as [|Hgt]; [assumption|exfalso].
    assert (2 ^ 1024 <= 2 ^ (D - 1)) by (apply Z.pow_le_mono_r; lia).
    assert (0 < 2 ^ 970) by (apply pow2_pos; lia). lia. }
  rewrite Z.add_0_r.
  assert (Hf : fexp D = D - 53) by (rewrite fexp_eq; lia).
  rewrite Hf.
  destruct (Z.le_gt_cases D 53) as [Hsmall|Hbig].
  - destruct (shl_align_down p 0 (D - 53) ltac:(lia)) as (mz & -> & Hmz).
    assert (Hdz : digits mz = 53).
    { pose proof (digits_mul_pow2 p (0 - (D - 53)) ltac:(lia)) as Hd.
      rewrite <- Hmz in Hd. cbn [Zdigits2] in Hd. fold D in Hd. lia. }
    assert (Hb : bounded prec emax mz (D - 53) = true).
    { apply bounded_intro; [rewrite Hdz, fexp_eq|]; lia. }
    pose proof (binary_round_aux_exact false mz (D - 53) 0 Hb ltac:(lia)) as Hr.
    rewrite Z.pow_0_r, Z.mul_1_r, Z.sub_0_r in Hr.
    exists mz, (D - 53). split; [exact Hr | exact Hb].
  - assert (Hsh : shl_align p 0 (D - 53) = (p, 0)).
    { unfold shl_align. destruct (D - 53 - 0) eqn:Hd; try reflexivity; lia. }
    rewrite Hsh. unfold binary_round_aux.
    set (k := D - 53).
    assert (Hk971 : k <= 971) by (unfold k; lia).
    assert (Hk1 : 1 <= k) by (unfold k; lia).
    pose proof (shr_fexp_round_bit p 0) as Hbit.
    destruct (shr_fexp_pos p 0 loc_Exact ltac:(lia)) as (mrs1 & q1 & Hs1 & Hq1 & Hv1).
    rewrite Hs1 in Hbit |- *. cbn [fst] in Hbit.
    fold D in Hv1, Hbit. rewrite Z.add_0_r, Hf in Hv1, Hbit.
    fold D. rewrite Z.add_0_r, Hf. fold k in Hv1, Hbit |- *.
    replace (Z.max 0 k) with k in * by lia. rewrite Z.sub_0_r in Hv1, Hbit.
    assert (Hpk := pow2_pos k ltac:(lia)).
    assert (HDk : 2 ^ D = 2 ^ k * 2 ^ 53)
      by (rewrite <- Z.pow_add_r by lia; f_equal; lia).
    assert (HDk' : 2 ^ (D - 1) = 2 ^ k * 2 ^ 52)
      by (rewrite <- Z.pow_add_r by lia; f_equal; lia).
    assert (Hq1lo : 2 ^ 52 <= Zpos q1).
    { rewrite Hv1. apply Z.div_le_lower_bound; lia. }
    assert (Hq1hi : Zpos q1 < 2 ^ 53).
    { rewrite Hv1. apply Z.div_lt_upper_bound; lia. }
    pose proof (round_nearest_even_bounds (shr_m mrs1) (loc_of_shr_record mrs1)) as Hr.
    pose proof (round_nearest_even_down mrs1) as Hdown.
    rewrite Hq1 in Hr, Hdown |- *.
    destruct (round_nearest_even (Zpos q1) (loc_of_shr_record mrs1)) as [|p1|p1] eqn:Hrne;
      try lia.
    destruct (shr_fexp_pos p1 k loc_Exact ltac:(lia)) as (mrs2 & q2 & -> & Hq2 & Hv2).
    rewrite Hq2.
    destruct (Z.lt_ge_cases (Zpos p1) (2 ^ 53)) as [Hp1|Hp1].
    + assert (Hd1 : digits p1 = 53) by (apply digits_unique; lia).
      rewrite Hd1 in Hv2 |- *.
      assert (Hfk : fexp (53 + k) = k) by (rewrite fexp_eq; lia).
      rewrite Hfk in Hv2 |- *. replace (Z.max k k) with k in * by lia.
      rewrite Z.sub_diag, Z.div_1_r in Hv2. injection Hv2 as ->.
      change (emax - prec) with 971.
      replace (k <=? 971) with true by (symmetry; apply Z.leb_le; exact Hk971).
      exists p1, k. split; [reflexivity|].
      apply bounded_intro; [rewrite Hd1; exact Hfk | exact Hk971].
    + assert (Hp1' : Zpos p1 = 2 ^ 53) by lia.
      assert (Hd1 : digits p1 = 54).
      { apply digits_unique. rewrite Hp1'. cbn. lia. }
      rewrite Hd1 in Hv2 |- *.
      assert (Hfk : fexp (54 + k) = k + 1) by (rewrite fexp_eq; lia).
      rewrite Hfk in Hv2 |- *. replace (Z.max k (k + 1)) with (k + 1) in * by lia.
      replace (k + 1 - k) with 1 in Hv2 by lia.
      rewrite Hp1' in Hv2. change (2 ^ 53 / 2 ^ 1) with (2 ^ 52) in Hv2.
      assert (Hk : k <= 970).
      { destruct (Z.le_gt_cases k 970) as [|Hgt]; [assumption|exfalso].
        assert (k = 971) by (unfold k in *; lia).
        assert (Hfalse : Z.testbit (Zpos p) (k - 1) = false).
        { apply Z.testbit_false; [lia|].
          assert (Hq : Zpos q1 = 2 ^ 53 - 1) by lia.
          pose proof (Z.div_mod (Zpos p) (2 ^ k) ltac:(lia)) as Hdm.
          pose proof (Z.mod_pos_bound (Zpos p) (2 ^ k) ltac:(lia)) as Hmb.
          rewrite <- Hv1, Hq in Hdm.
          assert (Hk2 : 2 ^ k = 2 * 2 ^ (k - 1))
            by (rewrite <- Z.pow_succ_r by lia; f_equal; lia).
          assert (Hpk1 := pow2_pos (k - 1) ltac:(lia)).
          assert (Hrem : Zpos p mod 2 ^ k < 2 ^ (k - 1)).
          { assert (H1024 : 2 ^ 1024 = 2 ^ k * 2 ^ 53)
              by (rewrite <- Z.pow_add_r by lia; f_equal; lia).
            replace (2 ^ 970) with (2 ^ (k - 1)) in Hp by (f_equal; lia).
            nia. }
          rewrite <- (Z.div_unique (Zpos p) (2 ^ (k - 1)) (2 * (2 ^ 53 - 1))
                        (Zpos p mod 2 ^ k)) by (try (left; lia); nia).
          rewrite Z.mul_comm. apply Z.mod_mul. lia. }
        rewrite <- Hbit in Hfalse by lia. specialize (Hdown Hfalse). lia. }
      change (emax - prec) with 971.
      replace (k + 1 <=? 971) with true by (symmetry; apply Z.leb_le; lia).
      exists q2, (k + 1). split; [reflexivity|].
      apply bounded_intro; [|lia].
      assert (Hd2 : digits q2 = 53) by (apply digits_unique; rewrite Hv2; cbn; lia).
      rewrite Hd2, fexp_eq. lia.
Qed.

(** So [float(n)] does not raise for such an [n], and is the rounded
    value. *)
Lemma float_of_int_finite n :
  1 <= n < 2 ^ 1024 - 2 ^ 970 →
  float_of_int n = inr (SF2Prim (binary_normalize prec emax n 0 false)).
Proof.
  intros [H1 H2]. destruct n as [|p|p]; try lia.
  destruct (int_rounds_finite p H2) as (m & e & Hr & Hb).
  unfold float_of_int. rewrite Hr, (is_infinity_finite false m e Hb). reflexivity.
Qed.

(** When the bit below the kept ones is 1 and the truncated mantissa is
    odd, rounding to nearest goes up. *)
Lemma round_nearest_even_up mrs :
  shr_r mrs = true → Z.odd (shr_m mrs) = true →
  round_nearest_even (shr_m mrs) (loc_of_shr_record mrs) = shr_m mrs + 1.
Proof.
  destruct mrs as [m [] []]; cbn; intros H Hodd; try discriminate H; [reflexivity|].
  rewrite <- Z.negb_odd, Hodd. reflexivity.
Qed.

(** Every integer from 2^1024 - 2^970 on rounds to infinity. *)
Lemma int_rounds_infinite (p : positive) :
  2 ^ 1024 - 2 ^ 970 <= Zpos p →
  binary_normalize prec emax (Zpos p) 0 false = S754_infinity false.
Proof.
  intros Hp. unfold binary_normalize, binary_round.
  pose proof (digits_bounds p) as [Hlo Hhi].
  set (D := digits p) in *.
  assert (H1023 : 2 ^ 1023 <= 2 ^ 1024 - 2 ^ 970) by (vm_compute; discriminate).
  assert (HD : 1024 <= D).
  { destruct (Z.le_gt_cases 1024 D) as [|Hlt]; [assumption|exfalso].
    assert (2 ^ D <= 2 ^ 1023) by (apply Z.pow_le_mono_r; lia). lia. }
  rewrite Z.add_0_r.
  assert (Hf : fexp D = D - 53) by (rewrite fexp_eq; lia).
  rewrite Hf.
  assert (Hsh : shl_align p 0 (D - 53) = (p, 0)).
  { unfold shl_align. destruct (D - 53 - 0) eqn:Hd; try reflexivity; lia. }
  rewrite Hsh. unfold binary_round_aux.
  set (k := D - 53).
  assert (Hk971 : 971 <= k) by (unfold k; lia).
  pose proof (shr_fexp_round_bit p 0) as Hbit.
  destruct (shr_fexp_pos p 0 loc_Exact ltac:(lia)) as (mrs1 & q1 & Hs1 & Hq1 & Hv1).
  rewrite Hs1 in Hbit |- *. cbn [fst] in Hbit.
  fold D in Hv1, Hbit. rewrite Z.add_0_r, Hf in Hv1, Hbit.
  fold D. rewrite Z.add_0_r, Hf. fold k in Hv1, Hbit |- *.
  replace (Z.max 0 k) with k in * by lia. rewrite Z.sub_0_r in Hv1, Hbit.
  assert (Hpk := pow2_pos k ltac:(lia)).
  pose proof (round_nearest_even_bounds (shr_m mrs1) (loc_of_shr_record mrs1)) as Hr.
  pose proof (round_nearest_even_up mrs1) as Hup.
  rewrite Hq1 in Hr, Hup |- *.
  destruct (round_nearest_even (Zpos q1) (loc_of_shr_record mrs1)) as [|p1|p1] eqn:Hrne;
    try lia.
  destruct (shr_fexp_pos p1 k loc_Exact ltac:(lia)) as (mrs2 & q2 & -> & Hq2 & Hv2).
  rewrite Hq2. change (emax - prec) with 971.
  replace (Z.max k (fexp (digits p1 + k)) <=? 971) with false; [reflexivity|].
  symmetry. apply Z.leb_gt.
  destruct (Z.eq_dec k 971) as [Hk|Hk]; [|lia].
  assert (HDk : 2 ^ 1024 = 2 ^ k * 2 ^ 53)
    by (rewrite <- Z.pow_add_r by lia; f_equal; lia).
  assert (Hk2 : 2 ^ k = 2 * 2 ^ (k - 1))
    by (rewrite <- Z.pow_succ_r by lia; f_equal; lia).
  assert (Hpk1 := pow2_pos (k - 1) ltac:(lia)).
  replace (2 ^ 970) with (2 ^ (k - 1)) in Hp by (f_equal; lia).
  assert (HD' : D = 1024) by (unfold k in Hk; lia). rewrite HD' in Hhi.
  assert (Hq : Zpos q1 = 2 ^ 53 - 1).
  { assert (2 ^ 53 - 1 <= Zpos q1)
      by (rewrite Hv1; apply Z.div_le_lower_bound; nia).
    assert (Zpos q1 < 2 ^ 53)
      by (rewrite Hv1; apply Z.div_lt_upper_bound; lia).
    lia. }
  pose proof (Z.div_mod (Zpos p) (2 ^ k) ltac:(lia)) as Hdm.
  pose proof (Z.mod_pos_bound (Zpos p) (2 ^ k) ltac:(lia)) as Hmb.
  rewrite <- Hv1, Hq in Hdm.
  assert (Htrue : Z.testbit (Zpos p) (k - 1) = true).
  { apply Z.testbit_true; [lia|].
    rewrite <- (Z.div_unique (Zpos p) (2 ^ (k - 1)) (2 * (2 ^ 53 - 1) + 1)
                  (Zpos p mod 2 ^ k - 2 ^ (k - 1))) by (try (left; nia); nia).
    rewrite Z.add_comm, Z.mul_comm, Z.mod_add by lia. reflexivity. }
  rewrite <- Hbit in Htrue by lia.
  assert (Hodd : Z.odd (Zpos q1) = true) by (rewrite Hq; reflexivity).
  specialize (Hup Htrue Hodd).
  assert (Hp1 : Zpos p1 = 2 ^ 53) by lia.
  assert (Hd1 : digits p1 = 54) by (apply digits_unique; rewrite Hp1; cbn; lia).
  rewrite Hd1, fexp_eq. lia.
Qed.

Lemma float_of_int_overflow n :
  2 ^ 1024 - 2 ^ 970 <= n → float_of_int n = inl OverflowError.
Proof.
  intros Hn.
  assert (H0 : 0 < 2 ^ 1024 - 2 ^ 970) by (vm_compute; reflexivity).
  destruct n as [|p|p]; try lia.
  unfold float_of_int. rewrite (int_rounds_infinite p Hn). reflexivity.
Qed.

End Conversion.

Lemma get_summary_converted m b :
  float_of_int (Z.max (ScreeningMetrics.total_processed m) 1) = inr b →
  ScreeningMetrics.get_summary m =
  inr {| ScreeningMetrics.summary_total_cost := ScreeningMetrics.total_cost m;
         ScreeningMetrics.summary_total_disagreements :=
           ScreeningMetrics.total_disagreements m;
         ScreeningMetrics.summary_total_processed := ScreeningMetrics.total_processed m;
         ScreeningMetrics.avg_cost_per_article :=
           (ScreeningMetrics.total_cost m / b)%float |}.
Proof.
  intros Hb. unfold ScreeningMetrics.get_summary, float_truediv_int.
  replace (Z.max (ScreeningMetrics.total_processed m) 1 =? 0)%Z with false
    by (symmetry; apply Z.eqb_neq; lia).
  rewrite Hb. reflexivity.
Qed.

Lemma get_summary_overflow m :
  (2 ^ 1024 - 2 ^ 970 ≤ ScreeningMetrics.total_processed m)%Z →
  ScreeningMetrics.get_summary m = inl OverflowError.
Proof.
  intros Hbig.
  assert (H0 : (0 < 2 ^ 1024 - 2 ^ 970)%Z) by (vm_compute; reflexivity).
  unfold ScreeningMetrics.get_summary, float_truediv_int.
  replace (Z.max (ScreeningMetrics.total_processed m) 1 =? 0)%Z with false
    by (symmetry; apply Z.eqb_neq; lia).
  rewrite float_of_int_overflow by (apply Z.max_le_iff; left; exact Hbig).
  reflexivity.
Qed.




(** * Further properties of the code *)

(** ** The transport: [_make_api_call] *)

Section TransportRuns.
Variable config : AppConfig.
Variable args : create_args.

Local Abbreviation delay := (retry_delay (llm config)).
Local Abbreviation budget := (max_retries (llm config)).

(** One turn of the loop, by what the API answers. *)
Lemma retry_loop_answered attempt todo response cost rest log naps :
  LLMClient._calculate_cost config response (arg_model args) = inr cost →
  LLMClient.retry_loop config args (attempt :: todo) (Success response :: rest) log naps =
  (Returned (Some (content response, cost)),
   {| answers := rest; created := log ++ [args]; slept := naps |}).
Proof. intros Hcost. cbn [LLMClient.retry_loop]. rewrite Hcost. reflexivity. Qed.

Lemma retry_loop_unpriceable attempt todo response e rest log naps :
  LLMClient._calculate_cost config response (arg_model args) = inl e →
  LLMClient.retry_loop config args (attempt :: todo) (Success response :: rest) log naps =
  LLMClient.retry_loop config args (attempt :: todo) (Failure e :: rest) log naps.
Proof. intros Hcost. cbn [LLMClient.retry_loop]. rewrite Hcost. reflexivity. Qed.


Lemma seq_range_cons k len :
  map Z.of_nat (seq k (S len)) = Z.of_nat k :: map Z.of_nat (seq (S k) len).
Proof. reflexivity. Qed.


(** On [range(max_retries)] the last attempt never falls through: the
    loop ends by returning a pair, by raising, or in a request. *)
Lemma retry_loop_never_none len : ∀ (k : nat) rest log naps,
  (Z.of_nat k + Z.of_nat (S len) = budget)%Z →
  (LLMClient.retry_loop config args (map Z.of_nat (seq k (S len))) rest log naps).1
  ≠ Returned None.
Proof.
  induction len as [|len IH]; intros k rest log naps Hk; rewrite seq_range_cons.
  - assert (Hfail : ∀ e rest',
      (LLMClient.retry_loop config args (Z.of_nat k :: map Z.of_nat (seq (S k) 0))
         (Failure e :: rest') log naps).1 ≠ Returned None).
    { intros e rest'. rewrite retry_loop_failure.
      replace (Z.of_nat k <? budget - 1)%Z with false
        by (symmetry; apply Z.ltb_ge; lia).
      discriminate. }
    destruct rest as [|[response|e] rest']; [discriminate| |apply Hfail].
    destruct (LLMClient._calculate_cost config response (arg_model args)) as [e|cost] eqn:Hc.
    + rewrite (retry_loop_unpriceable _ _ _ e) by exact Hc. apply Hfail.
    + rewrite (retry_loop_answered _ _ _ cost) by exact Hc. discriminate.
  - assert (Hfail : ∀ e rest',
      (LLMClient.retry_loop config args (Z.of_nat k :: map Z.of_nat (seq (S k) (S len)))
         (Failure e :: rest') log naps).1 ≠ Returned None).
    { intros e rest'. rewrite retry_loop_failure.
      destruct (Z.of_nat k <? budget - 1)%Z; [|discriminate].
      destruct (delay <? 0)%Z; [discriminate|]. apply IH. lia. }
    destruct rest as [|[response|e] rest']; [discriminate| |apply Hfail].
    destruct (LLMClient._calculate_cost config response (arg_model args)) as [e|cost] eqn:Hc.
    + rewrite (retry_loop_unpriceable _ _ _ e) by exact Hc. apply Hfail.
    + rewrite (retry_loop_answered _ _ _ cost) by exact Hc. discriminate.
Qed.


End TransportRuns.

Lemma range_positive n :
  (0 < n)%Z → ∃ len, LLMClient.range n = map Z.of_nat (seq 0 (S len)) ∧ Z.of_nat (S len) = n.
Proof.
  intros Hn. unfold LLMClient.range.
  destruct (Z.to_nat n) as [|len] eqn:Hlen; [lia|].
  exists len. split; [reflexivity|lia].
Qed.

Lemma make_api_call_without_attempt
  (config : AppConfig) (model : string) (msgs : messages)
  (system_message : option string) (t : Transport) :
  (max_retries (llm config) ≤ 0)%Z →
  LLMClient._make_api_call config model msgs system_message t =
  (Returned None, {| answers := answers t; created := created t; slept := slept t |}).
Proof.
  intros Hle. unfold LLMClient._make_api_call, LLMClient.range.
  replace (Z.to_nat (max_retries (llm config))) with 0%nat by lia. reflexivity.
Qed.

(** X1.  [_make_api_call] returns [None] exactly when [max_retries] is
    zero or negative, and then it has asked the API nothing and slept
    nothing: the [for] loop has no turn.  With a positive [max_retries]
    it ends with a pair, an exception, or in a request. *)
Theorem X1_returns_none_iff_no_attempt
  (config : AppConfig) (model : string) (msgs : messages)
  (system_message : option string) (t : Transport) :
  ((LLMClient._make_api_call config model msgs system_message t).1 = Returned None
   ↔ (max_retries (llm config) ≤ 0)%Z) ∧
  ((max_retries (llm config) ≤ 0)%Z →
   LLMClient._make_api_call config model msgs system_message t =
   (Returned None,
    {| answers := answers t; created := created t; slept := slept t |})).
Proof.
  pose proof (make_api_call_without_attempt config model msgs system_message t) as Hnone.
  split; [|exact Hnone]. split.
  - intros Hret. destruct (Z.le_gt_cases (max_retries (llm config)) 0) as [|Hpos];
      [assumption|exfalso].
    destruct (range_positive (max_retries (llm config)) ltac:(lia)) as (len & Hrange & Hlen).
    unfold LLMClient._make_api_call in Hret. rewrite Hrange in Hret.
    revert Hret. apply retry_loop_never_none. lia.
  - intros Hle. rewrite (Hnone Hle). reflexivity.
Qed.


Section TransportScenarios.
Local Open Scope string_scope.


End TransportScenarios.


Section NegativeDelayScenario.
Local Open Scope string_scope.


End NegativeDelayScenario.


Section ExhaustedScenario.
Local Open Scope string_scope.


End ExhaustedScenario.

(** ** The two review operations *)

Section ReviewMarkers.
Local Open Scope string_scope.

Lemma review_chains_agree text :
  DetailedScreener.review_screening_chain text
  = CitationClassifier.review_classification_chain text.
Proof. reflexivity. Qed.

Lemma review_chain_first text :
  re.search "XXX" text || re.search "YYY" text = true →
  CitationClassifier.review_classification_chain text = Some (re.search "XXX" text).
Proof.
  unfold CitationClassifier.review_classification_chain.
  destruct (re.search "XXX" text); [reflexivity|].
  destruct (re.search "YYY" text); [reflexivity|discriminate].
Qed.

Lemma review_malformed c text cost :
  table_of c = table_of (ReviewClassification "") →
  re.search "XXX" text = false → re.search "YYY" text = false →
  malformed c (Reply text cost).
Proof.
  intros Htable Hx Hy. unfold malformed, markers_of. rewrite Htable.
  repeat constructor; assumption.
Qed.

(** X5.  Both review operations read their reply the same way: when the
    text holds XXX or YYY in any case, the call returns the text as it
    came with the agreement [True] exactly when XXX is found, so XXX wins
    over YYY when both are there.  ZZZ is no marker for a review: a text
    with ZZZ and neither XXX nor YYY, which [classify] reads as
    "likely irrelevant", is paid for, dropped and asked again. *)
Theorem X5_review_agreement_is_xxx_first
  (text review_prompt : string) (agent : TwoTierScreeningAgent.t)
  (cost : float) (rest : list reply) (log : list request)
  (Hmarker : re.search "XXX" text || re.search "YYY" text = true) :
  let p := {| replies := Reply text cost :: rest; calls := log |} in
  (perform (ReviewClassification review_prompt) agent p).1.1
  = Returned (AgreementOf text (re.search "XXX" text)) ∧
  (perform (ReviewScreening review_prompt) agent p).1.1
  = Returned (AgreementOf text (re.search "XXX" text)) ∧
  (re.search "XXX" text && re.search "YYY" text = true →
   (perform (ReviewClassification review_prompt) agent p).1.1
   = Returned (AgreementOf text true)) ∧
  (∀ other a b c d prompt,
     re.search "XXX" other = false → re.search "YYY" other = false →
     re.search "ZZZ" other = true →
     let q := {| replies := Reply other cost :: rest; calls := log |} in
     (perform (Classify a b c d prompt) agent q).1.1
     = Returned (DecisionOf other "likely irrelevant") ∧
     perform (ReviewClassification review_prompt) agent q
     = perform (ReviewClassification review_prompt)
         (with_metrics ClassifierTier
            (ScreeningMetrics.add_cost (metrics_of ClassifierTier agent) cost) agent)
         {| replies := rest; calls := log ++ [request_of (ReviewClassification review_prompt)] |} ∧
     perform (ReviewScreening review_prompt) agent q
     = perform (ReviewScreening review_prompt)
         (with_metrics DetailedTier
            (ScreeningMetrics.add_cost (metrics_of DetailedTier agent) cost) agent)
         {| replies := rest; calls := log ++ [request_of (ReviewScreening review_prompt)] |}).
Proof.
  intros p.
  assert (Hc : (perform (ReviewClassification review_prompt) agent p).1.1
               = Returned (AgreementOf text (re.search "XXX" text))).
  { unfold p. rewrite (perform_first_reply _ _ _ _ _ _
      (AgreementOf text (re.search "XXX" text))); [reflexivity|].
    rewrite read_review_classification, (review_chain_first _ Hmarker). reflexivity. }
  assert (Hd : (perform (ReviewScreening review_prompt) agent p).1.1
               = Returned (AgreementOf text (re.search "XXX" text))).
  { unfold p. rewrite (perform_first_reply _ _ _ _ _ _
      (AgreementOf text (re.search "XXX" text))); [reflexivity|].
    rewrite read_review_screening, review_chains_agree, (review_chain_first _ Hmarker).
    reflexivity. }
  split; [exact Hc|]. split; [exact Hd|]. split.
  - intros Hboth. rewrite Hc. apply andb_true_iff in Hboth as [-> _]. reflexivity.
  - intros other a b c d prompt Hx Hy Hz q. unfold q. split; [|split].
    + rewrite (perform_first_reply _ _ _ _ _ _ (DecisionOf other "likely irrelevant"));
        [reflexivity|].
      rewrite read_classify. unfold CitationClassifier.classify_chain.
      rewrite Hx, Hy, Hz. reflexivity.
    + apply (perform_malformed_first (ReviewClassification review_prompt)).
      apply review_malformed; [reflexivity|assumption..].
    + apply (perform_malformed_first (ReviewScreening review_prompt)).
      apply review_malformed; [reflexivity|assumption..].
Qed.

(** X5 on a reply that holds both markers. *)
Lemma X5_witness :
  let text := "yyy at first, then Xxx" in
  let p := {| replies := [Reply text 0.01]; calls := [] |} in
  (perform (ReviewClassification "review") TwoTierScreeningAgent.__init__ p).1.1
  = Returned (AgreementOf text true) ∧
  (perform (ReviewScreening "review") TwoTierScreeningAgent.__init__ p).1.1
  = Returned (AgreementOf text true).
Proof.
  intros text p.
  destruct (X5_review_agreement_is_xxx_first text "review" TwoTierScreeningAgent.__init__
              0.01%float [] [] eq_refl) as (Hc & Hd & _).
  split; [exact Hc|exact Hd].
Defined.

End ReviewMarkers.

(** ** What an operation can return *)

Section Answers.
Local Open Scope string_scope.

(** The decisions an operation can give. *)
Lemma read_range c text a :
  read c text = Some a →
  match c with
  | Classify _ _ _ _ _ | ImproveClassification _ =>
      ∃ d, a = DecisionOf text d ∧
           d ∈ ["potentially relevant"; "uncertain"; "likely irrelevant"]
  | Screen _ | ImproveScreening _ =>
      ∃ d, a = DecisionOf text d ∧ d ∈ ["included"; "excluded"]
  | ReviewClassification _ | ReviewScreening _ => ∃ b, a = AgreementOf text b
  end.
Proof.
  destruct c; unfold read; cbn [table_of map first_match classifier_table agreement_table
                                 screen_table improve_screening_table];
    repeat (match goal with
            | |- context [re.search ?m text] => destruct (re.search m text)
            end; cbn [fmap option_fmap option_map]);
    intros H; try discriminate H; injection H as <-;
    eexists; try (split; [reflexivity|]); try reflexivity; set_solver.
Qed.

(** X6.  Whatever the provider sends, an operation that returns gives back
    one of the texts the provider sent it, unchanged, with a value of the
    operation's own closed set: one of the three relevance classes for
    [classify] and [improve_classification], "included" or "excluded" for
    [screen] and [improve_screening], a boolean for the two reviews.  That
    text holds one of the operation's markers, and every reply before it
    held none. *)
Theorem X6_returned_answer_is_of_the_closed_set
  (c : tier_call) (agent : TwoTierScreeningAgent.t) (p : Provider) (a : answer)
  (Hreturned : (perform c agent p).1.1 = Returned a) :
  ∃ pre text cost post,
    replies p = (pre ++ Reply text cost :: post)%list ∧
    Forall (malformed c) pre ∧
    (∃ marker, marker ∈ markers_of c ∧ re.search marker text = true) ∧
    match c with
    | Classify _ _ _ _ _ | ImproveClassification _ =>
        ∃ d, a = DecisionOf text d ∧
             d ∈ ["potentially relevant"; "uncertain"; "likely irrelevant"]
    | Screen _ | ImproveScreening _ =>
        ∃ d, a = DecisionOf text d ∧ d ∈ ["included"; "excluded"]
    | ReviewClassification _ | ReviewScreening _ => ∃ b, a = AgreementOf text b
    end.
Proof.
  destruct p as [rest log]. cbn [replies].
  destruct (call_shape c rest)
    as [(pre & text & cost & a' & post & -> & Hpre & Hread)
       |[(pre & e & post & -> & Hpre) | Hall]].
  - rewrite (perform_returned c agent pre text cost a' post log Hpre Hread) in Hreturned.
    injection Hreturned as <-.
    exists pre, text, cost, post. split; [reflexivity|]. split; [exact Hpre|].
    split; [exact (read_some_marker _ _ _ Hread)|exact (read_range _ _ _ Hread)].
  - rewrite (perform_raised c agent pre e post log Hpre) in Hreturned.
    discriminate Hreturned.
  - rewrite (perform_blocked c agent rest log Hall) in Hreturned.
    discriminate Hreturned.
Qed.

(** X6 on a screening that is answered at the second reply. *)
Lemma X6_witness :
  let p := {| replies := [Reply "no marker" 0.01; Reply "verdict: yyy" 0.02;
                          Reply "XXX" 0.03];
              calls := [] |} in
  ∃ pre text cost post,
    replies p = (pre ++ Reply text cost :: post)%list ∧
    Forall (malformed (Screen "screen")) pre ∧
    (∃ marker, marker ∈ markers_of (Screen "screen") ∧ re.search marker text = true) ∧
    ∃ d, DecisionOf "verdict: yyy" "included" = DecisionOf text d ∧
         d ∈ ["included"; "excluded"].
Proof.
  intros p.
  exact (X6_returned_answer_is_of_the_closed_set (Screen "screen")
           TwoTierScreeningAgent.__init__ p (DecisionOf "verdict: yyy" "included") eq_refl).
Defined.

End Answers.

(** ** The requests an agent makes *)

Lemma perform_requests c agent p :
  ∃ used,
    replies p = used ++ replies (perform c agent p).2 ∧
    calls (perform c agent p).2
    = calls p ++ replicate (length used + blocked [(perform c agent p).1.1]) (request_of c) ∧
    (1 ≤ length used + blocked [(perform c agent p).1.1])%nat.
Proof.
  destruct p as [rest log]. cbn [replies calls].
  destruct (call_shape c rest)
    as [(pre & text & cost & a' & post & -> & Hpre & Hread)
       |[(pre & e & post & -> & Hpre) | Hall]].
  - rewrite (perform_returned c agent pre text cost a' post log Hpre Hread).
    cbn [fst snd replies calls blocked].
    exists (pre ++ [Reply text cost]). rewrite <- app_assoc, length_app. cbn [app length].
    split; [reflexivity|]. split; [|lia].
    f_equal. f_equal. lia.
  - rewrite (perform_raised c agent pre e post log Hpre).
    cbn [fst snd replies calls blocked].
    exists (pre ++ [Raises e]). rewrite <- app_assoc, length_app. cbn [app length].
    split; [reflexivity|]. split; [|lia].
    f_equal. f_equal. lia.
  - rewrite (perform_blocked c agent rest log Hall).
    cbn [fst snd replies calls blocked].
    exists rest. rewrite app_nil_r. split; [reflexivity|]. split; [|lia].
    f_equal. f_equal. lia.
Qed.

(** X7.  The requests of a sequence of operations are accounted for one
    by one: the provider's log grows at its end only, by requests that
    are each the request of one of the operations performed; there is one
    request per reply taken from the script, and one more for each
    operation left waiting on an empty script; the replies are taken from
    the front of the script, in order, and each operation makes at least
    one request. *)
Theorem X7_one_request_per_reply_taken
  (cs : list tier_call) (agent : TwoTierScreeningAgent.t) (p : Provider) :
  let after := perform_all cs agent p in
  ∃ used new,
    replies p = used ++ replies after.2 ∧
    calls after.2 = calls p ++ new ∧
    Forall (λ r, ∃ c, c ∈ cs ∧ r = request_of c) new ∧
    length new = (length used + blocked after.1.1)%nat ∧
    (length cs ≤ length new)%nat ∧
    length after.1.1 = length cs.
Proof.
  revert agent p. induction cs as [|c cs IH]; intros agent p after.
  - exists [], []. subst after. cbn. rewrite app_nil_r. repeat split; constructor.
  - subst after. cbn [perform_all].
    destruct (perform_requests c agent p) as (used1 & Hused1 & Hcalls1 & Hone).
    destruct (perform c agent p) as [[o agent'] p'] eqn:Hperform. cbn [fst snd] in *.
    specialize (IH agent' p'). cbn zeta in IH.
    destruct IH as (used2 & new2 & Hused2 & Hcalls2 & Hnew2 & Hlen2 & Hcs2 & Hos2).
    destruct (perform_all cs agent' p') as [[os agent''] p''] eqn:Hall. cbn [fst snd] in *.
    exists (used1 ++ used2),
           (replicate (length used1 + blocked [o]) (request_of c) ++ new2).
    split; [rewrite Hused1, Hused2, app_assoc; reflexivity|].
    split; [rewrite Hcalls2, Hcalls1, app_assoc; reflexivity|].
    split.
    { apply Forall_app. split.
      - apply Forall_forall. intros r Hr. apply elem_of_replicate in Hr as [-> _].
        exists c. split; [left|reflexivity].
      - eapply Forall_impl; [exact Hnew2|].
        intros r (c' & Hin & ->). exists c'. split; [right; exact Hin|reflexivity]. }
    rewrite !length_app, length_replicate, Hlen2. cbn [length].
    split; [|split; [|f_equal; exact Hos2]].
    + destruct o; cbn [blocked] in *; lia.
    + destruct o; cbn [blocked] in *; lia.
Qed.

(** ** The metrics object under any sequence of method calls *)

Lemma SFadd_comm x y : SF64add x y = SF64add y x.
Proof.
  unfold SF64add, SFadd.
  destruct x as [sx|sx| |sx mx ex], y as [sy|sy| |sy my ey]; try reflexivity;
    try (destruct sx, sy; reflexivity).
  cbn zeta. change IntDef.Z.min with Z.min.
  rewrite (Z.min_comm ey ex). f_equal. apply Z.add_comm.
Qed.

Lemma float_add_comm (x y : float) : (x + y)%float = (y + x)%float.
Proof. apply Prim2SF_inj. rewrite !add_spec. apply SFadd_comm. Qed.

Lemma add_nonneg_ge_r (x c : float) :
  nonneg x → nonneg c → (c <=? x + c)%float = true.
Proof.
  intros Hx Hc. rewrite float_add_comm. exact (proj1 (add_nonneg_ge c x Hc Hx)).
Qed.

Lemma invoke_all_snoc m cs c : invoke_all m (cs ++ [c]) = invoke (invoke_all m cs) c.
Proof. unfold invoke_all. rewrite fold_left_app. reflexivity. Qed.

Lemma added_snoc cs c :
  added (cs ++ [c]) = added cs ++ match c with AddCost cost => [cost] | _ => [] end.
Proof.
  induction cs as [|[cost'| |] cs IH]; cbn [app added];
    [destruct c; reflexivity|rewrite IH; reflexivity..].
Qed.

Lemma invoke_all_fields cs : ∀ m,
  ScreeningMetrics.total_cost (invoke_all m cs)
  = add_all (ScreeningMetrics.total_cost m) (added cs) ∧
  ScreeningMetrics.total_disagreements (invoke_all m cs)
  = (ScreeningMetrics.total_disagreements m + disagreements cs)%Z ∧
  ScreeningMetrics.total_processed (invoke_all m cs)
  = (ScreeningMetrics.total_processed m + processed cs)%Z.
Proof.
  induction cs as [|c cs IH]; intros m.
  - cbn. repeat split; lia.
  - change (invoke_all m (c :: cs)) with (invoke_all (invoke m c) cs).
    destruct (IH (invoke m c)) as (Hc & Hd & Hp). rewrite Hc, Hd, Hp.
    destruct c; cbn; repeat split; lia.
Qed.

Lemma counts_nonneg cs : (0 ≤ disagreements cs)%Z ∧ (0 ≤ processed cs)%Z.
Proof. induction cs as [|[cost| |] cs [IHd IHp]]; cbn [disagreements processed]; lia. Qed.

Lemma metrics_eq (m m' : ScreeningMetrics.t) :
  ScreeningMetrics.total_cost m = ScreeningMetrics.total_cost m' →
  ScreeningMetrics.total_disagreements m = ScreeningMetrics.total_disagreements m' →
  ScreeningMetrics.total_processed m = ScreeningMetrics.total_processed m' →
  m = m'.
Proof. destruct m, m'. cbn. intros -> -> ->. reflexivity. Qed.

(** X8.  The three fields of a [ScreeningMetrics] do not interfere.  After
    any sequence of calls of its three methods, [total_cost] is the float
    sum, in call order, of the costs given to [add_cost], added to what it
    was; [total_disagreements] and [total_processed] have grown by the
    number of calls of [add_disagreement] and of [increment_processed].
    So two sequences with the same costs in the same order and as many
    calls of each counter method leave the object in the same state,
    however the calls are interleaved. *)
Theorem X8_metrics_fields_do_not_interfere
  (cs : list method) (m : ScreeningMetrics.t) :
  ScreeningMetrics.total_cost (invoke_all m cs)
  = add_all (ScreeningMetrics.total_cost m) (added cs) ∧
  ScreeningMetrics.total_disagreements (invoke_all m cs)
  = (ScreeningMetrics.total_disagreements m + disagreements cs)%Z ∧
  ScreeningMetrics.total_processed (invoke_all m cs)
  = (ScreeningMetrics.total_processed m + processed cs)%Z ∧
  (0 ≤ disagreements cs)%Z ∧ (0 ≤ processed cs)%Z ∧
  (∀ cs', added cs' = added cs → disagreements cs' = disagreements cs →
          processed cs' = processed cs → invoke_all m cs' = invoke_all m cs).
Proof.
  destruct (invoke_all_fields cs m) as (Hc & Hd & Hp).
  destruct (counts_nonneg cs) as [Hd0 Hp0].
  repeat (split; [assumption|]).
  intros cs' Ea Ed Ep. destruct (invoke_all_fields cs' m) as (Hc' & Hd' & Hp').
  apply metrics_eq; congruence.
Qed.

Lemma reachable_invoke_all cs : ∀ m,
  ScreeningMetrics.reachable m → Forall nonneg (added cs) →
  ScreeningMetrics.reachable (invoke_all m cs).
Proof.
  induction cs as [|c cs IH]; intros m Hm Hcs; [exact Hm|].
  change (invoke_all m (c :: cs)) with (invoke_all (invoke m c) cs).
  destruct c as [cost| |]; cbn [added invoke] in *.
  - apply Forall_cons in Hcs as [Hcost Hcs].
    apply IH; [constructor; assumption|exact Hcs].
  - apply IH; [constructor; assumption|exact Hcs].
  - apply IH; [constructor; assumption|exact Hcs].
Qed.

Lemma reachable_counters m :
  ScreeningMetrics.reachable m →
  (0 ≤ ScreeningMetrics.total_disagreements m)%Z ∧
  (0 ≤ ScreeningMetrics.total_processed m)%Z.
Proof. induction 1 as [|? ? ? [? ?] ?|? ? [? ?]|? ? [? ?]]; cbn; lia. Qed.

(** X9.  The states a [ScreeningMetrics] can be in, when the costs given
    to [add_cost] are not negative, are those a fresh object is brought to
    by a sequence of calls of its methods; in each of them the two
    counters are not negative and [total_cost] is a float that is not
    negative (so neither NaN). *)
Theorem X9_metrics_never_negative (m : ScreeningMetrics.t) :
  (ScreeningMetrics.reachable m ↔
   ∃ cs, Forall nonneg (added cs) ∧ m = invoke_all ScreeningMetrics.__init__ cs) ∧
  (ScreeningMetrics.reachable m →
   (0 ≤ ScreeningMetrics.total_disagreements m)%Z ∧
   (0 ≤ ScreeningMetrics.total_processed m)%Z ∧
   nonneg (ScreeningMetrics.total_cost m)).
Proof.
  split; [split|].
  - induction 1 as [|m cost Hm (cs & Hcs & ->) Hcost|m Hm (cs & Hcs & ->)
                    |m Hm (cs & Hcs & ->)].
    + exists []. split; [constructor|reflexivity].
    + exists (cs ++ [AddCost cost]). rewrite added_snoc, invoke_all_snoc.
      split; [apply Forall_app; split; [exact Hcs|repeat constructor; exact Hcost]
             |reflexivity].
    + exists (cs ++ [AddDisagreement]). rewrite added_snoc, invoke_all_snoc, app_nil_r.
      split; [exact Hcs|reflexivity].
    + exists (cs ++ [IncrementProcessed]). rewrite added_snoc, invoke_all_snoc, app_nil_r.
      split; [exact Hcs|reflexivity].
  - intros (cs & Hcs & ->). apply reachable_invoke_all; [constructor|exact Hcs].
  - intros Hm. destruct (reachable_counters m Hm) as [Hd Hp].
    split; [exact Hd|]. split; [exact Hp|]. apply reachable_total_cost_nonneg, Hm.
Qed.

(** ** [TwoTierScreeningAgent.get_metrics_summary] *)

Lemma get_summary_in_range m :
  (ScreeningMetrics.total_processed m < 2 ^ 1024 - 2 ^ 970)%Z →
  ∃ b,
    float_of_int (Z.max (ScreeningMetrics.total_processed m) 1) = inr b ∧
    ScreeningMetrics.get_summary m =
    inr {| ScreeningMetrics.summary_total_cost := ScreeningMetrics.total_cost m;
           ScreeningMetrics.summary_total_disagreements :=
             ScreeningMetrics.total_disagreements m;
           ScreeningMetrics.summary_total_processed := ScreeningMetrics.total_processed m;
           ScreeningMetrics.avg_cost_per_article :=
             (ScreeningMetrics.total_cost m / b)%float |}.
Proof.
  intros Hrange.
  assert (Hone : (1 < 2 ^ 1024 - 2 ^ 970)%Z) by (vm_compute; reflexivity).
  assert (Hpos : (1 ≤ Z.max (ScreeningMetrics.total_processed m) 1)%Z) by lia.
  assert (Hconv := float_of_int_finite (Z.max (ScreeningMetrics.total_processed m) 1)
                     (conj Hpos (Z.max_lub_lt _ _ _ Hrange Hone))).
  eexists. split; [exact Hconv|]. apply get_summary_converted, Hconv.
Qed.

Lemma get_summary_unprocessed m :
  (ScreeningMetrics.total_processed m ≤ 1)%Z →
  ScreeningMetrics.get_summary m =
  inr {| ScreeningMetrics.summary_total_cost := ScreeningMetrics.total_cost m;
         ScreeningMetrics.summary_total_disagreements :=
           ScreeningMetrics.total_disagreements m;
         ScreeningMetrics.summary_total_processed := ScreeningMetrics.total_processed m;
         ScreeningMetrics.avg_cost_per_article := ScreeningMetrics.total_cost m |}.
Proof.
  intros Hle.
  assert (Hmax : Z.max (ScreeningMetrics.total_processed m) 1 = 1%Z) by lia.
  rewrite (get_summary_converted m 1%float) by (rewrite Hmax; apply float_of_int_one).
  rewrite div_one. reflexivity.
Qed.

Lemma get_summary_raises m e :
  ScreeningMetrics.get_summary m = inl e →
  e = OverflowError ∧ (2 ^ 1024 - 2 ^ 970 ≤ ScreeningMetrics.total_processed m)%Z.
Proof.
  intros He.
  destruct (Z.lt_ge_cases (ScreeningMetrics.total_processed m) (2 ^ 1024 - 2 ^ 970))
    as [Hlt|Hge].
  - destruct (get_summary_in_range m Hlt) as (b & _ & Hs). congruence.
  - rewrite (get_summary_overflow m Hge) in He. split; [congruence|exact Hge].
Qed.

(** X10.  When the [total_processed] of both tiers is below
    2^1024 - 2^970, [get_metrics_summary] returns the two tiers' own
    summaries, unchanged, with [total_cost] the float sum of the two
    [total_cost] (the classifier's first) and [total_disagreements] the
    sum of the two counters; [total_processed] is not combined.  In any
    state it raises nothing but [OverflowError], and that exactly when one
    of the two [total_processed] is 2^1024 - 2^970 or more. *)
Theorem X10_combined_summary_adds_the_tiers
  (agent : TwoTierScreeningAgent.t)
  (Hclassifier :
     (ScreeningMetrics.total_processed (metrics_of ClassifierTier agent)
      < 2 ^ 1024 - 2 ^ 970)%Z)
  (Hdetailed :
     (ScreeningMetrics.total_processed (metrics_of DetailedTier agent)
      < 2 ^ 1024 - 2 ^ 970)%Z) :
  (∃ sc sd,
     ScreeningMetrics.get_summary (metrics_of ClassifierTier agent) = inr sc ∧
     ScreeningMetrics.get_summary (metrics_of DetailedTier agent) = inr sd ∧
     TwoTierScreeningAgent.get_metrics_summary agent =
     inr {| TwoTierScreeningAgent.classifier_summary := sc;
            TwoTierScreeningAgent.detailed_screener_summary := sd;
            TwoTierScreeningAgent.total_cost :=
              (ScreeningMetrics.total_cost (metrics_of ClassifierTier agent)
               + ScreeningMetrics.total_cost (metrics_of DetailedTier agent))%float;
            TwoTierScreeningAgent.total_disagreements :=
              (ScreeningMetrics.total_disagreements (metrics_of ClassifierTier agent)
               + ScreeningMetrics.total_disagreements (metrics_of DetailedTier agent))%Z |}) ∧
  (∀ other e,
     TwoTierScreeningAgent.get_metrics_summary other = inl e ↔
     e = OverflowError ∧
     ((2 ^ 1024 - 2 ^ 970
       ≤ ScreeningMetrics.total_processed (metrics_of ClassifierTier other))%Z ∨
      (2 ^ 1024 - 2 ^ 970
       ≤ ScreeningMetrics.total_processed (metrics_of DetailedTier other))%Z)).
Proof.
  split.
  - destruct (get_summary_in_range _ Hclassifier) as (bc & _ & Hsc).
    destruct (get_summary_in_range _ Hdetailed) as (bd & _ & Hsd).
    eexists _, _. split; [exact Hsc|]. split; [exact Hsd|].
    unfold TwoTierScreeningAgent.get_metrics_summary.
    cbn [metrics_of] in Hsc, Hsd. rewrite Hsc, Hsd. reflexivity.
  - intros other e. unfold TwoTierScreeningAgent.get_metrics_summary. cbn [metrics_of].
    destruct (ScreeningMetrics.get_summary
                (CitationClassifier.metrics (TwoTierScreeningAgent.classifier other)))
      as [ec|sc] eqn:Hsc.
    + apply get_summary_raises in Hsc as [-> Hbig]. cbn. split.
      * intros [= <-]. split; [reflexivity|left; exact Hbig].
      * intros [-> _]. reflexivity.
    + destruct (ScreeningMetrics.get_summary
                  (DetailedScreener.metrics (TwoTierScreeningAgent.detailed_screener other)))
        as [ed|sd] eqn:Hsd.
      * apply get_summary_raises in Hsd as [-> Hbig]. cbn. split.
        -- intros [= <-]. split; [reflexivity|right; exact Hbig].
        -- intros [-> _]. reflexivity.
      * cbn. split; [discriminate|].
        intros [_ [Hbig|Hbig]].
        -- rewrite (get_summary_overflow _ Hbig) in Hsc. discriminate Hsc.
        -- rewrite (get_summary_overflow _ Hbig) in Hsd. discriminate Hsd.
Qed.

(** X10 on an agent whose classifier has spent 0.25 on 4 articles and whose
    detailed screener has spent 0.5 on none. *)
Lemma X10_witness :
  let agent :=
    {| TwoTierScreeningAgent.classifier :=
         {| CitationClassifier.metrics :=
              {| ScreeningMetrics.total_cost := 0.25;
                 ScreeningMetrics.total_disagreements := 1;
                 ScreeningMetrics.total_processed := 4 |} |};
       TwoTierScreeningAgent.detailed_screener :=
         {| DetailedScreener.metrics :=
              {| ScreeningMetrics.total_cost := 0.5;
                 ScreeningMetrics.total_disagreements := 2;
                 ScreeningMetrics.total_processed := 0 |} |} |} in
  ∃ sc sd,
    ScreeningMetrics.get_summary (metrics_of ClassifierTier agent) = inr sc ∧
    ScreeningMetrics.get_summary (metrics_of DetailedTier agent) = inr sd ∧
    TwoTierScreeningAgent.get_metrics_summary agent =
    inr {| TwoTierScreeningAgent.classifier_summary := sc;
           TwoTierScreeningAgent.detailed_screener_summary := sd;
           TwoTierScreeningAgent.total_cost := (0.25 + 0.5)%float;
           TwoTierScreeningAgent.total_disagreements := 1 + 2 |}.
Proof.
  intros agent.
  exact (proj1 (X10_combined_summary_adds_the_tiers agent
                  ltac:(vm_compute; reflexivity) ltac:(vm_compute; reflexivity))).
Defined.

(** X11.  An agent that has only run operations, from its creation,
    against a provider whose costs are not negative, always has a summary:
    [get_metrics_summary] returns, both tiers report 0 processed articles
    and 0 disagreements, so each tier's [avg_cost_per_article] is its
    whole [total_cost], the combined [total_disagreements] is 0, and the
    combined [total_cost] is not negative and at least the [total_cost] of
    each tier. *)
Theorem X11_summary_after_operations
  (cs : list tier_call) (p : Provider)
  (Hcosts : Forall nonneg (costs (replies p))) :
  let after := (perform_all cs TwoTierScreeningAgent.__init__ p).1.2 in
  let spent i := ScreeningMetrics.total_cost (metrics_of i after) in
  let summary_of i :=
    {| ScreeningMetrics.summary_total_cost := spent i;
       ScreeningMetrics.summary_total_disagreements := 0;
       ScreeningMetrics.summary_total_processed := 0;
       ScreeningMetrics.avg_cost_per_article := spent i |} in
  TwoTierScreeningAgent.get_metrics_summary after =
  inr {| TwoTierScreeningAgent.classifier_summary := summary_of ClassifierTier;
         TwoTierScreeningAgent.detailed_screener_summary := summary_of DetailedTier;
         TwoTierScreeningAgent.total_cost := (spent ClassifierTier + spent DetailedTier)%float;
         TwoTierScreeningAgent.total_disagreements := 0 |} ∧
  (spent ClassifierTier <=? spent ClassifierTier + spent DetailedTier)%float = true ∧
  (spent DetailedTier <=? spent ClassifierTier + spent DetailedTier)%float = true ∧
  nonneg (spent ClassifierTier + spent DetailedTier).
Proof.
  intros after spent summary_of.
  assert (Hfresh : ∀ j, nonneg (ScreeningMetrics.total_cost
                                  (metrics_of j TwoTierScreeningAgent.__init__))).
  { intros []; reflexivity. }
  pose proof (perform_all_total_cost cs TwoTierScreeningAgent.__init__ p Hfresh Hcosts)
    as Htotal.
  pose proof (perform_all_counters cs TwoTierScreeningAgent.__init__ p) as Hcount.
  fold after in Htotal, Hcount.
  destruct (Hcount ClassifierTier) as [Hdc Hpc], (Hcount DetailedTier) as [Hdd Hpd].
  cbn in Hdc, Hpc, Hdd, Hpd.
  destruct (Htotal ClassifierTier) as [_ Hnc], (Htotal DetailedTier) as [_ Hnd].
  fold (spent ClassifierTier) in Hnc. fold (spent DetailedTier) in Hnd.
  split; [|split; [|split]].
  - unfold TwoTierScreeningAgent.get_metrics_summary.
    rewrite !get_summary_unprocessed by (rewrite ?Hpc, ?Hpd; lia).
    cbn [mbind raising_bind ScreeningMetrics.summary_total_cost
         ScreeningMetrics.summary_total_disagreements].
    unfold summary_of, spent. cbn [metrics_of]. rewrite Hdc, Hpc, Hdd, Hpd. reflexivity.
  - exact (proj1 (add_nonneg_ge _ _ Hnc Hnd)).
  - exact (add_nonneg_ge_r _ _ Hnc Hnd).
  - exact (proj2 (add_nonneg_ge _ _ Hnc Hnd)).
Qed.

Section SummaryScenario.
Local Open Scope string_scope.

(** X11 on a screening that is reviewed and improved. *)
Lemma X11_witness :
  let p := {| replies := [Reply "YYY meets criteria" 0.25; Reply "no marker" 0.5;
                          Reply "YYY disagree" 0.125];
              calls := [] |} in
  let after :=
    (perform_all [Classify "t" "a" "ct" "ca" "classify"; ReviewScreening "review"]
       TwoTierScreeningAgent.__init__ p).1.2 in
  ∃ s, TwoTierScreeningAgent.get_metrics_summary after = inr s ∧
       TwoTierScreeningAgent.total_disagreements s = 0%Z ∧
       TwoTierScreeningAgent.total_cost s = (0 + 0.25 + (0 + 0.5 + 0.125))%float.
Proof.
  intros p after.
  destruct (X11_summary_after_operations
              [Classify "t" "a" "ct" "ca" "classify"; ReviewScreening "review"] p
              ltac:(repeat constructor)) as (Hsummary & _).
  eexists. split; [exact Hsummary|]. split; reflexivity.
Defined.

End SummaryScenario.

(** ** The cost of a call is a float that is not negative *)

Section Products.
Local Open Scope Z_scope.

Lemma shr_fexp_nonneg m e l :
  0 <= m -> 0 <= shr_m (fst (shr_fexp prec emax m e l)).
Proof.
  intros Hm. unfold shr_fexp.
  assert (H0 : shr_m (shr_record_of_loc m l) = m) by (destruct l as [|[]]; reflexivity).
  generalize (SpecFloat.fexp prec emax (Zdigits2 m + e) - e). intros n.
  destruct n as [|n|n]; cbn [shr fst]; rewrite ?H0; try exact Hm.
  rewrite iter_shr_1_m by (rewrite H0; exact Hm). rewrite H0.
  apply Z.div_pos; [exact Hm|apply pow2_pos; lia].
Qed.

Lemma binary_round_aux_nonneg m e l :
  0 <= m -> SFnonneg (binary_round_aux prec emax false m e l).
Proof.
  intros Hm. unfold binary_round_aux.
  pose proof (shr_fexp_nonneg m e l Hm) as H1.
  destruct (shr_fexp prec emax m e l) as [mrs' e']. cbn [fst] in H1.
  pose proof (round_nearest_even_bounds (shr_m mrs') (loc_of_shr_record mrs')) as [H2 _].
  pose proof (shr_fexp_nonneg (round_nearest_even (shr_m mrs') (loc_of_shr_record mrs'))
                e' loc_Exact ltac:(lia)) as H3.
  destruct (shr_fexp prec emax _ e' loc_Exact) as [mrs'' e'']. cbn [fst] in H3.
  destruct (shr_m mrs'') as [|q|q]; [reflexivity| |lia].
  destruct (e'' <=? emax - prec); reflexivity.
Qed.

Lemma SFmul_nonneg x y :
  SFnonneg x -> SFnonneg y ->
  SFltb x (S754_infinity false) = true -> SFltb y (S754_infinity false) = true ->
  SFnonneg (SF64mul x y).
Proof.
  unfold SFnonneg, SF64mul, SFmul. intros Hx Hy Fx Fy.
  destruct x as [sx|sx| |sx mx ex], y as [sy|sy| |sy my ey];
    try destruct sx; try destruct sy;
    try discriminate Hx; try discriminate Hy;
    try discriminate Fx; try discriminate Fy;
    try reflexivity.
  apply binary_round_aux_nonneg. lia.
Qed.

End Products.

Lemma Prim2SF_infinity : Prim2SF infinity = S754_infinity false.
Proof. reflexivity. Qed.

Lemma mul_nonneg (x y : float) :
  nonneg x → nonneg y →
  (x <? infinity)%float = true → (y <? infinity)%float = true →
  nonneg (x * y).
Proof.
  unfold nonneg. rewrite !nonneg_spec, !ltb_spec, mul_spec, Prim2SF_infinity.
  apply SFmul_nonneg.
Qed.

Lemma float_of_int_nonneg n :
  (0 ≤ n < 2 ^ 1024 - 2 ^ 970)%Z →
  ∃ f, float_of_int n = inr f ∧ nonneg f ∧ (f <? infinity)%float = true.
Proof.
  intros [H0 Hn]. destruct n as [|p|p]; [|clear H0|lia].
  - exists 0%float. repeat split.
  - destruct (int_rounds_finite p Hn) as (m & e & Hr & Hb).
    exists (SF2Prim (S754_finite false m e)).
    unfold float_of_int. rewrite Hr, (is_infinity_finite false m e Hb).
    split; [reflexivity|]. unfold nonneg.
    rewrite nonneg_spec, ltb_spec, Prim2SF_SF2Prim by exact Hb.
    split; reflexivity.
Qed.

Lemma float_of_int_zero : float_of_int 0 = inr 0%float.
Proof. reflexivity. Qed.




Section Costs.
Local Open Scope string_scope.

(** X12.  With token counts from 0 to below 2^1024 - 2^970 and prices (the
    entries "prompt" and "completion" of the model, where there are) that
    are floats from 0 to below infinity, [_calculate_cost] returns, and
    what it returns is a number that is not negative: a float, or the int
    0 when the model's entry has neither price.  So the costs that the
    tiers add to [total_cost] are not negative. *)
Theorem X12_cost_is_not_negative
  (config : AppConfig) (response : ChatCompletion) (model_name : string)
  (Hprices : ∀ entry key p,
     pricing (llm config) !! model_name = Some entry →
     key ∈ ["prompt"; "completion"] → entry !! key = Some p →
     nonneg p ∧ (p <? infinity)%float = true)
  (Hprompt : (0 ≤ prompt_tokens (usage response) < 2 ^ 1024 - 2 ^ 970)%Z)
  (Hcompletion : (0 ≤ completion_tokens (usage response) < 2 ^ 1024 - 2 ^ 970)%Z) :
  ∃ cost f,
    LLMClient._calculate_cost config response model_name = inr cost ∧
    to_float cost = inr f ∧ nonneg f ∧
    (cost = Float f ∨ cost = Int 0).
Proof.
  unfold LLMClient._calculate_cost.
  destruct (pricing (llm config) !! model_name) as [entry|] eqn:Hentry; cbn [default from_option id];
    [|exists (Float 0), 0%float; rewrite decide_True by reflexivity;
      split; [reflexivity|]; split; [reflexivity|]; split; [reflexivity|left; reflexivity]].
  destruct (decide (entry = ∅)) as [_|_];
    [exists (Float 0), 0%float;
     split; [reflexivity|]; split; [reflexivity|]; split; [reflexivity|left; reflexivity]|].
  destruct (float_of_int_nonneg _ Hprompt) as (fp & Hfp & Np & Fp).
  destruct (float_of_int_nonneg _ Hcompletion) as (fc & Hfc & Nc & Fc).
  assert (Hp := λ p, Hprices entry "prompt" p eq_refl (list_elem_of_here _ _)).
  assert (Hc := λ p, Hprices entry "completion" p eq_refl
                       (list_elem_of_further _ _ _ (list_elem_of_here _ _))).
  unfold LLMClient.price.
  destruct (entry !! "prompt") as [p|], (entry !! "completion") as [c|];
    cbn [number_mul number_add to_float mbind raising_bind];
    rewrite ?Hfp, ?Hfc, ?Z.mul_0_r; cbn [mbind raising_bind to_float Z.add];
    rewrite ?float_of_int_zero; cbn [mbind raising_bind].
  - destruct (Hp p eq_refl) as [Pn Pf], (Hc c eq_refl) as [Cn Cf].
    eexists _, _. split; [reflexivity|]. split; [reflexivity|]. split; [|left; reflexivity].
    apply add_nonneg_ge; apply mul_nonneg; assumption.
  - destruct (Hp p eq_refl) as [Pn Pf].
    eexists _, _. split; [reflexivity|]. split; [reflexivity|]. split; [|left; reflexivity].
    apply add_nonneg_ge; [apply mul_nonneg; assumption|reflexivity].
  - destruct (Hc c eq_refl) as [Cn Cf].
    eexists _, _. split; [reflexivity|]. split; [reflexivity|]. split; [|left; reflexivity].
    apply add_nonneg_ge; [reflexivity|apply mul_nonneg; assumption].
  - exists (Int 0), 0%float.
    split; [reflexivity|]. split; [reflexivity|]. split; [reflexivity|right; reflexivity].
Qed.

(** X12 on the default prices of gpt-4o-mini. *)
Lemma X12_witness :
  let response :=
    {| content := "XXX relevant";
       usage := {| prompt_tokens := 1000; completion_tokens := 200 |} |} in
  ∃ cost f,
    LLMClient._calculate_cost default_config response "gpt-4o-mini" = inr cost ∧
    to_float cost = inr f ∧ nonneg f ∧ (cost = Float f ∨ cost = Int 0).
Proof.
  intros response.
  apply (X12_cost_is_not_negative default_config response "gpt-4o-mini").
  - intros entry key p Hentry Hkey Hp.
    vm_compute in Hentry. injection Hentry as <-.
    apply elem_of_cons in Hkey as [->|Hkey];
      [|apply elem_of_cons in Hkey as [->|Hkey]; [|inversion Hkey]];
      vm_compute in Hp; injection Hp as <-; split; reflexivity.
  - cbn. split; [lia|]. vm_compute. reflexivity.
  - cbn. split; [lia|]. vm_compute. reflexivity.
Defined.

End Costs.

(** ** An answer whose cost cannot be computed *)


Section UnpriceableScenario.
Local Open Scope string_scope.


End UnpriceableScenario.

(** ** Two costs, in either order *)



(** ** The markers are read up to case *)

Lemma match_here_fold_case pattern : ∀ text text',
  fold_case text = fold_case text' →
  re.match_here pattern text = re.match_here pattern text'.
Proof.
  induction pattern as [|p pattern IH]; intros [|c text] [|c' text'] H;
    try reflexivity; try discriminate H.
  cbn [fold_case] in H. injection H as Hc H.
  cbn [re.match_here]. unfold re.ieq. rewrite Hc, (IH text text' H). reflexivity.
Qed.

Lemma search_fold_case pattern text : ∀ text',
  fold_case text = fold_case text' →
  re.search pattern text = re.search pattern text'.
Proof.
  induction text as [|c text IH]; intros [|c' text'] H; try reflexivity; try discriminate H.
  cbn [re.search].
  rewrite (match_here_fold_case pattern (String c text) (String c' text') H).
  cbn [fold_case] in H. injection H as _ H. rewrite (IH text' H). reflexivity.
Qed.

Lemma first_match_fold_case {A} (table : list (string * A)) text text' :
  fold_case text = fold_case text' → first_match table text = first_match table text'.
Proof.
  intros H. induction table as [|[marker a] table IH]; [reflexivity|].
  cbn [first_match]. rewrite (search_fold_case marker text text' H), IH. reflexivity.
Qed.

Section FoldCase.
Local Open Scope string_scope.

(** X15.  The six operations read their reply up to ASCII case: two texts
    that differ only in the case of their letters get the same decision or
    agreement, or are both asked again, and either text is then paid for
    and answered by the same request; only the text handed back differs. *)
Theorem X15_replies_are_read_up_to_case
  (text text' : string) (c : tier_call) (agent : TwoTierScreeningAgent.t)
  (cost : float) (rest : list reply) (log : list request)
  (Hsame : fold_case text = fold_case text') :
  let after := perform c agent {| replies := Reply text cost :: rest; calls := log |} in
  let after' := perform c agent {| replies := Reply text' cost :: rest; calls := log |} in
  CitationClassifier.classify_chain text = CitationClassifier.classify_chain text' ∧
  CitationClassifier.review_classification_chain text
  = CitationClassifier.review_classification_chain text' ∧
  CitationClassifier.improve_classification_chain text
  = CitationClassifier.improve_classification_chain text' ∧
  DetailedScreener.screen_chain text = DetailedScreener.screen_chain text' ∧
  DetailedScreener.review_screening_chain text
  = DetailedScreener.review_screening_chain text' ∧
  DetailedScreener.improve_screening_chain text
  = DetailedScreener.improve_screening_chain text' ∧
  after.1.2 = after'.1.2 ∧ after.2 = after'.2 ∧
  (malformed c (Reply text cost) → after = after') ∧
  (∀ a, read c text = Some a →
        ∃ a', read c text' = Some a' ∧
              after.1.1 = Returned a ∧ after'.1.1 = Returned a' ∧
              match a, a' with
              | DecisionOf t d, DecisionOf t' d' => t = text ∧ t' = text' ∧ d = d'
              | AgreementOf t b, AgreementOf t' b' => t = text ∧ t' = text' ∧ b = b'
              | _, _ => False
              end).
Proof.
  intros after after'.
  assert (Hs : ∀ marker, re.search marker text = re.search marker text')
    by (intros marker; apply search_fold_case, Hsame).
  assert (Hmal : malformed c (Reply text cost) → malformed c (Reply text' cost)).
  { unfold malformed. intros H. eapply Forall_impl; [exact H|].
    intros marker. cbn beta. rewrite Hs. trivial. }
  assert (Hbad : malformed c (Reply text cost) → after = after').
  { intros Hm. unfold after, after'.
    rewrite (perform_malformed_first c agent text cost rest log Hm),
            (perform_malformed_first c agent text' cost rest log (Hmal Hm)).
    reflexivity. }
  assert (Hgood : ∀ a, read c text = Some a →
    ∃ a', read c text' = Some a' ∧
          after.1.1 = Returned a ∧ after'.1.1 = Returned a' ∧
          after.1.2 = after'.1.2 ∧ after.2 = after'.2 ∧
          match a, a' with
          | DecisionOf t d, DecisionOf t' d' => t = text ∧ t' = text' ∧ d = d'
          | AgreementOf t b, AgreementOf t' b' => t = text ∧ t' = text' ∧ b = b'
          | _, _ => False
          end).
  { intros a Ha. unfold read in Ha.
    destruct (first_match (table_of c) text) as [f|] eqn:Hf; [|discriminate Ha].
    injection Ha as <-.
    assert (Ha : read c text = Some (f text)) by (unfold read; rewrite Hf; reflexivity).
    assert (Ha' : read c text' = Some (f text')).
    { unfold read. rewrite <- (first_match_fold_case (table_of c) text text' Hsame), Hf.
      reflexivity. }
    exists (f text'). split; [exact Ha'|]. unfold after, after'.
    rewrite (perform_first_reply c agent text cost rest log _ Ha),
            (perform_first_reply c agent text' cost rest log _ Ha').
    repeat (split; [reflexivity|]).
    clear -Hf. destruct c;
      cbn [table_of map first_match classifier_table agreement_table
           screen_table improve_screening_table] in Hf;
      repeat match type of Hf with
             | context [re.search ?m text] => destruct (re.search m text)
             end;
      try discriminate Hf; injection Hf as <-; repeat split. }
  unfold CitationClassifier.classify_chain, CitationClassifier.review_classification_chain,
    CitationClassifier.improve_classification_chain, DetailedScreener.screen_chain,
    DetailedScreener.review_screening_chain, DetailedScreener.improve_screening_chain.
  rewrite !Hs. repeat (split; [reflexivity|]).
  assert (Hcases : malformed c (Reply text cost) ∨ ∃ a, read c text = Some a).
  { destruct (read c text) as [a|] eqn:Ha; [right; exists a; reflexivity|left].
    apply malformed_unread. exact Ha. }
  split; [|split; [|split]].
  - destruct Hcases as [Hm|(a & Ha)]; [rewrite (Hbad Hm); reflexivity|].
    destruct (Hgood a Ha) as (a' & _ & _ & _ & H & _). exact H.
  - destruct Hcases as [Hm|(a & Ha)]; [rewrite (Hbad Hm); reflexivity|].
    destruct (Hgood a Ha) as (a' & _ & _ & _ & _ & H & _). exact H.
  - exact Hbad.
  - intros a Ha. destruct (Hgood a Ha) as (a' & H1 & H2 & H3 & _ & _ & H4).
    exists a'. repeat (split; [assumption|]). exact H4.
Qed.

(** X15 on a verdict in two spellings. *)
Lemma X15_witness :
  DetailedScreener.screen_chain "Verdict: yYy" = DetailedScreener.screen_chain "VERDICT: YYY" ∧
  CitationClassifier.classify_chain "Verdict: yYy"
  = CitationClassifier.classify_chain "VERDICT: YYY".
Proof.
  destruct (X15_replies_are_read_up_to_case "Verdict: yYy" "VERDICT: YYY" (Screen "screen")
              TwoTierScreeningAgent.__init__ 0.01%float [] [] eq_refl)
    as (Hclassify & _ & _ & Hscreen & _).
  split; [exact Hscreen|exact Hclassify].
Defined.

End FoldCase.
